(** * Detection decoding and annotation pipeline of [app.py]

    A shallow embedding of the algorithmic core of the self-driving demo
    ([add_boxes], [get_selected_frames] and the decoding loops of
    [yolo_v3]) together with the properties stated for it.

    Conventions of the embedding:
    - numpy [float64] values are IEEE 754 binary64 numbers, taken from the
      executable specification [SpecFloat] (53 bits of precision, exponent
      bound 1024); a [float32] network output is such a number as well,
      since every binary32 value is a binary64 value and numpy promotes it
      before any of the operations used here (the product with an integer
      array, and the comparison with a Python float, which numpy before
      2.0 makes in [float64]);
    - [uint8] values are [byte]s;
    - numpy arrays live in a store and are named by references, because
      [add_boxes] updates an array in place;
    - Python exceptions are values of [exn]. *)

From Stdlib Require Import ZArith Lia Bool.
From Stdlib Require Import Floats.SpecFloat.
From Stdlib Require Import Init.Byte.
From stdpp Require Import base option list strings gmap sorting.

Local Open Scope Z_scope.

(* ================================================================= *)
(** ** Numbers *)

Module F64.
Definition prec : Z := 53.
Definition emax : Z := 1024.

Definition of_Z (z : Z) : spec_float := binary_normalize prec emax z 0 false.
Definition add : spec_float -> spec_float -> spec_float := SFadd prec emax.
Definition sub : spec_float -> spec_float -> spec_float := SFsub prec emax.
Definition mul : spec_float -> spec_float -> spec_float := SFmul prec emax.
Definition div : spec_float -> spec_float -> spec_float := SFdiv prec emax.

(** [x < y] and [x <= y]; both are false as soon as one side is a NaN. *)
Definition ltb : spec_float -> spec_float -> bool := SFltb.
Definition leb : spec_float -> spec_float -> bool := SFleb.

Definition is_nan (x : spec_float) : bool :=
  match x with S754_nan => true | _ => false end.

(** Rounding toward zero to a mathematical integer; undefined on NaN and
    on the infinities. *)
Definition trunc (x : spec_float) : option Z :=
  match x with
  | S754_zero _ => Some 0
  | S754_finite s m e => Some (cond_Zopp s (Z.shiftl (Zpos m) e))
  | S754_infinity _ | S754_nan => None
  end.
End F64.

(** Python exceptions raised by the modelled code. *)
Inductive exn : Type :=
| KeyError (key : string)
| IndexError
| ValueError
| OverflowError
| TypeError
| NameError.

Inductive result (A : Type) : Type :=
| Ok (a : A)
| Raise (e : exn).
Arguments Ok {A} a.
Arguments Raise {A} e.

Definition byte_of_Z (z : Z) : byte := default x00 (Byte.of_N (Z.to_N z)).

(** [uint8 -> float64], exact. *)
Definition u8_to_f64 (b : byte) : spec_float := F64.of_Z (Z.of_N (Byte.to_N b)).

(** [float64 -> uint8] as [astype(np.uint8)] does it: the fraction is
    dropped; a value outside [0, 256) is reduced modulo 256 (what the C
    cast yields on the usual targets; [add_boxes] never produces one). *)
Definition f64_to_u8 (x : spec_float) : byte :=
  match F64.trunc x with
  | Some z => byte_of_Z (z mod 256)
  | None => x00
  end.

(** [astype("int")]: conversion to a 64-bit integer; a NaN, an infinity or
    a value out of range yields the smallest 64-bit integer. *)
Definition f64_to_int64 (x : spec_float) : Z :=
  match F64.trunc x with
  | Some z => if (- 2 ^ 63 <=? z) && (z <? 2 ^ 63) then z else - 2 ^ 63
  | None => - 2 ^ 63
  end.

(** Python's [int(x)] on a float: exact truncation, [ValueError] on a NaN
    and [OverflowError] on an infinity. *)
Definition py_int (x : spec_float) : result Z :=
  match x with
  | S754_nan => Raise ValueError
  | S754_infinity _ => Raise OverflowError
  | _ => match F64.trunc x with Some z => Ok z | None => Raise ValueError end
  end.

(* ================================================================= *)
(** ** Images and slices *)

(** The last axis of an image has the three channels. *)
Definition rgb (A : Type) : Type := (A * A * A)%type.

Definition rgb_map {A B} (f : A -> B) (p : rgb A) : rgb B :=
  let '(r, g, b) := p in (f r, f g, f b).

Definition rgb_map2 {A B C} (f : A -> B -> C) (p : rgb A) (q : rgb B) : rgb C :=
  let '(r, g, b) := p in let '(r', g', b') := q in (f r r', f g g', f b b').

(** An [H x W x 3] array: rows, then columns. *)
Abbreviation array A := (list (list (rgb A))) (only parsing).

Definition shape {A} (a : array A) : nat * nat :=
  (length a, match a with [] => O | row :: _ => length row end).

Definition pixel {A} (a : array A) (y x : nat) : option (rgb A) :=
  a !! y ≫= (.!! x).

(** One bound of a Python slice on an axis of length [len]: a negative
    index counts from the end of the axis, and the result is clipped to
    [0, len]. *)
Definition slice_bound (len : nat) (i : Z) : nat :=
  Z.to_nat (if i <? 0 then Z.max 0 (i + Z.of_nat len) else Z.min i (Z.of_nat len)).

(** Whether position [i] of the axis belongs to [start:stop]. *)
Definition in_slice (start stop : Z) (len i : nat) : bool :=
  bool_decide (slice_bound len start <= i < slice_bound len stop)%nat.

(** In-place update of [l[start:stop]], where the axis has length [len]. *)
Definition map_slice {A} (f : A -> A) (len : nat) (start stop : Z) (l : list A) : list A :=
  imap (fun i a => if in_slice start stop len i then f a else a) l.

(** In-place update of [a[ymin:ymax, xmin:xmax, :]]. *)
Definition update_rect {A} (f : rgb A -> rgb A) (ymin ymax xmin xmax : Z)
    (a : array A) : array A :=
  let '(H, W) := shape a in
  map_slice (map_slice f W xmin xmax) H ymin ymax a.

Inductive ndarray : Type :=
| Uint8 (a : array byte)
| Float64 (a : array spec_float).

(* ================================================================= *)
(** ** The store of arrays and the monad of statements *)

Abbreviation loc := nat (only parsing).
Abbreviation heap := (list ndarray) (only parsing).

Definition M (A : Type) : Type := heap -> result A * heap.

Definition ret {A} (a : A) : M A := fun h => (Ok a, h).
Definition raise {A} (e : exn) : M A := fun h => (Raise e, h).
Definition bind {A B} (m : M A) (k : A -> M B) : M B :=
  fun h => match m h with
           | (Ok a, h') => k a h'
           | (Raise e, h') => (Raise e, h')
           end.

Notation "'let*' x := m 'in' k" := (bind m (fun x => k))
  (at level 10, x name, m at level 100, k at level 200).
Notation "m ;; k" := (bind m (fun _ => k))
  (at level 100, k at level 200, right associativity).

(** [for x in l: body(x)] *)
Fixpoint for_each {A} (body : A -> M unit) (l : list A) : M unit :=
  match l with
  | [] => ret tt
  | x :: l' => body x ;; for_each body l'
  end.

Definition alloc (a : ndarray) : M loc :=
  fun h => (Ok (length h), h ++ [a]).

Definition load (l : loc) : M ndarray :=
  fun h => match h !! l with
           | Some a => (Ok a, h)
           | None => (Raise NameError, h)
           end.

Definition store (l : loc) (a : ndarray) : M unit :=
  fun h => (Ok tt, <[l := a]> h).

(** [a.astype(np.float64)]: always a new array. *)
Definition astype_float64 (l : loc) : M loc :=
  let* a := load l in
  match a with
  | Uint8 px => alloc (Float64 (map (map (rgb_map u8_to_f64)) px))
  | Float64 px => alloc (Float64 px)
  end.

(** [a.astype(np.uint8)]: always a new array. *)
Definition astype_uint8 (l : loc) : M loc :=
  let* a := load l in
  match a with
  | Uint8 px => alloc (Uint8 px)
  | Float64 px => alloc (Uint8 (map (map (rgb_map f64_to_u8)) px))
  end.

(** [a[ymin:ymax, xmin:xmax, :] += color], the colour being broadcast
    along the rows and columns of the slice. An integer array refuses the
    in-place result of a wider type. *)
Definition iadd_rect (l : loc) (ymin ymax xmin xmax : Z) (color : rgb Z) : M unit :=
  let* a := load l in
  match a with
  | Float64 px =>
      store l (Float64 (update_rect
                 (fun v => rgb_map2 F64.add v (rgb_map F64.of_Z color))
                 ymin ymax xmin xmax px))
  | Uint8 _ => raise TypeError
  end.

(** [a[ymin:ymax, xmin:xmax, :] /= d] *)
Definition idiv_rect (l : loc) (ymin ymax xmin xmax : Z) (d : Z) : M unit :=
  let* a := load l in
  match a with
  | Float64 px =>
      store l (Float64 (update_rect
                 (rgb_map (fun v => F64.div v (F64.of_Z d)))
                 ymin ymax xmin xmax px))
  | Uint8 _ => raise TypeError
  end.

(* ================================================================= *)
(** ** [add_boxes] *)

Definition LABEL_COLORS : gmap string (rgb Z) :=
  {[ "car" := (255, 0, 0);
     "pedestrian" := (0, 255, 0);
     "truck" := (0, 0, 255);
     "trafficLight" := (255, 255, 0);
     "biker" := (255, 0, 255) ]}.

(** [d[key]] on a dictionary. *)
Definition getitem {V} (d : gmap string V) (key : string) : M V :=
  match d !! key with
  | Some v => ret v
  | None => raise (KeyError key)
  end.

(** A row of a box table: the columns [xmin, ymin, xmax, ymax, label]. *)
Record Box : Type := mkBox {
  xmin : Z;
  ymin : Z;
  xmax : Z;
  ymax : Z;
  label : string
}.

(** The body of the loop, for the row [b] of the table. *)
Definition add_boxes_body (image : loc) (b : Box) : M unit :=
  let* color := getitem LABEL_COLORS (label b) in
  iadd_rect image (ymin b) (ymax b) (xmin b) (xmax b) color ;;
  idiv_rect image (ymin b) (ymax b) (xmin b) (xmax b) 2.

Definition add_boxes (image : loc) (boxes : list Box) : M loc :=
  let* image := astype_float64 image in
  for_each (add_boxes_body image) boxes ;;
  astype_uint8 image.


(* ================================================================= *)
(** ** Pure code that may raise *)

#[global] Instance result_ret : MRet result := fun A a => Ok a.
#[global] Instance result_bind : MBind result :=
  fun A B k m => match m with Ok a => k a | Raise e => Raise e end.
#[global] Instance result_fmap : FMap result :=
  fun A B f m => match m with Ok a => Ok (f a) | Raise e => Raise e end.

(** [acc = f(acc, x)] for [x] in [l], stopping at the first exception. *)
Fixpoint fold_result {A B} (f : A -> B -> result A) (acc : A) (l : list B) : result A :=
  match l with
  | [] => Ok acc
  | x :: l' => acc' ← f acc x; fold_result f acc' l'
  end.

(** [l[i]] on a Python list, for [i >= 0]. *)
Definition index {A} (l : list A) (i : nat) : result A :=
  match l !! i with
  | Some a => Ok a
  | None => Raise IndexError
  end.

(* ================================================================= *)
(** ** The decoding loop of [yolo_v3] *)

(** The scan of [np.argmax] over the elements after the first: [best] is
    the value at [best_i], the current maximum; an element replaces it
    unless it is [<=] the maximum, and a NaN maximum ends the scan. *)
Fixpoint argmax_from (best : spec_float) (best_i i : nat) (l : list spec_float) : nat :=
  match l with
  | [] => best_i
  | v :: l' =>
      if F64.is_nan best then best_i
      else if negb (F64.leb v best) then argmax_from v i (S i) l'
      else argmax_from best best_i (S i) l'
  end.

(** [np.argmax(l)]: the index of the first occurrence of the maximum; an
    empty array has none. *)
Definition argmax (l : list spec_float) : result nat :=
  match l with
  | [] => Raise ValueError
  | v :: l' => Ok (argmax_from v 0 1 l')
  end.

(** [a * np.array(dims)] for [dims] of length four: [a] must have four
    elements, or one that is repeated. *)
Definition mul_dims (a : list spec_float) (W H : Z) : result (list spec_float) :=
  match a with
  | [cx; cy; w; h] =>
      Ok [F64.mul cx (F64.of_Z W); F64.mul cy (F64.of_Z H);
          F64.mul w (F64.of_Z W); F64.mul h (F64.of_Z H)]
  | [v] =>
      Ok [F64.mul v (F64.of_Z W); F64.mul v (F64.of_Z H);
          F64.mul v (F64.of_Z W); F64.mul v (F64.of_Z H)]
  | _ => Raise ValueError
  end.

(** The three lists the loop appends to. A box is [[x, y, w, h]]. *)
Record detections : Type := mkDetections {
  boxes : list (Z * Z * Z * Z);
  confidences : list spec_float;
  class_IDs : list nat
}.

(** [int(c - (d / 2))] for the integers [c] and [d] of an integer array. *)
Definition corner (c d : Z) : result Z :=
  py_int (F64.sub (F64.of_Z c) (F64.div (F64.of_Z d) (F64.of_Z 2))).

(** The body of the inner loop, for one row [detection] of a layer. *)
Definition decode_row (W H : Z) (confidence_threshold : spec_float)
    (acc : detections) (detection : list spec_float) : result detections :=
  let scores := drop 5 detection in
  classID ← argmax scores;
  confidence ← index scores classID;
  if F64.ltb confidence_threshold confidence then
    box ← mul_dims (take 4 detection) W H;
    match map f64_to_int64 box with
    | [centerX; centerY; width; height] =>
        x ← corner centerX width;
        y ← corner centerY height;
        Ok (mkDetections (boxes acc ++ [(x, y, width, height)])
                         (confidences acc ++ [confidence])
                         (class_IDs acc ++ [classID]))
    | _ => Raise ValueError
    end
  else Ok acc.

Definition decode (layer_outputs : list (list (list spec_float))) (W H : Z)
    (confidence_threshold : spec_float) : result detections :=
  fold_result (fun acc output =>
      fold_result (decode_row W H confidence_threshold) acc output)
    (mkDetections [] [] []) layer_outputs.

(* ================================================================= *)
(** ** Suppression *)

(** Modelled from the spec: a candidate handed to the suppression, with
    its position in the input lists, its box "in (x, y, w, h) corner+extent
    form" and its confidence. *)
Record cand : Type := mkCand {
  cand_idx : nat;
  cand_box : Z * Z * Z * Z;
  cand_conf : spec_float
}.

(** Modelled from the spec: the area of a box; a box of negative extent
    has none. *)
Definition area (b : Z * Z * Z * Z) : Z :=
  let '(_, _, w, h) := b in Z.max 0 w * Z.max 0 h.

(** Modelled from the spec: the "overlapping area" of two boxes. *)
Definition intersection (a b : Z * Z * Z * Z) : Z :=
  let '(xa, ya, wa, ha) := a in
  let '(xb, yb, wb, hb) := b in
  Z.max 0 (Z.min (xa + wa) (xb + wb) - Z.max xa xb)
  * Z.max 0 (Z.min (ya + ha) (yb + hb) - Z.max ya yb).

(** Modelled from the spec: intersection-over-union, the "ratio of
    overlapping area to union area of two rectangles"; [cv2] computes it
    inside [NMSBoxes], which is not part of the repository. *)
Definition iou (a b : Z * Z * Z * Z) : spec_float :=
  let i := intersection a b in
  F64.div (F64.of_Z i) (F64.of_Z (area a + area b - i)).

(** Modelled from the spec: "the remaining box with highest confidence",
    where "ties in confidence break by the original candidate order
    (stable, first-seen wins)". *)
Fixpoint best_from (best : cand) (l : list cand) : cand :=
  match l with
  | [] => best
  | c :: l' =>
      if F64.ltb (cand_conf best) (cand_conf c) then best_from c l'
      else best_from best l'
  end.

(** Modelled from the spec: the selection among the remaining
    candidates; there is none when nothing remains. *)
Definition select_best (remaining : list cand) : option cand :=
  match remaining with
  | [] => None
  | c :: l => Some (best_from c l)
  end.

(** Modelled from the spec: what remains once [c] has been kept; [c]
    itself leaves, and so does every box "whose intersection-over-union
    with it exceeds [overlap_threshold]". *)
Definition survives (overlap_threshold : spec_float) (c c' : cand) : bool :=
  negb (Nat.eqb (cand_idx c') (cand_idx c))
  && negb (F64.ltb overlap_threshold (iou (cand_box c) (cand_box c'))).

(** Modelled from the spec: select, keep, discard, "repeat until no boxes
    remain"; one unit of [fuel] per selection. *)
Fixpoint greedy (overlap_threshold : spec_float) (fuel : nat) (remaining : list cand)
    : list nat :=
  match fuel with
  | O => []
  | S fuel' =>
      match select_best remaining with
      | None => []
      | Some c =>
          cand_idx c ::
          greedy overlap_threshold fuel'
                 (filter (fun c' => survives overlap_threshold c c') remaining)
      end
  end.

(** Modelled from the spec: the candidates that pass the "confidence
    filtering" of the Suppression Engine, numbered by their positions in
    the input lists. *)
Definition candidates (boxes : list (Z * Z * Z * Z)) (confidences : list spec_float)
    (score_threshold : spec_float) : list cand :=
  filter (fun c => F64.ltb score_threshold (cand_conf c))
    (imap (fun i bc => mkCand i (fst bc) (snd bc)) (zip boxes confidences)).

(** Modelled from the spec: [cv2.dnn.NMSBoxes], the Suppression Engine,
    which is called by [yolo_v3] and is not part of the repository. It
    "applies confidence filtering and greedy overlap-based suppression":
    "repeatedly select the remaining box with highest confidence, keep it,
    and discard all remaining boxes whose intersection-over-union with it
    exceeds [overlap_threshold]; repeat until no boxes remain", ties going
    to the candidate seen first. The result lists the kept indices. *)
Definition NMSBoxes (boxes : list (Z * Z * Z * Z)) (confidences : list spec_float)
    (score_threshold nms_threshold : spec_float) : list nat :=
  let remaining := candidates boxes confidences score_threshold in
  greedy nms_threshold (length remaining) remaining.

(* ================================================================= *)
(** ** Labels and the table returned by [yolo_v3] *)

(** The application's label of each of the 80 classes of the network, in
    rows of ten; [None] where the class is not shown. *)
Definition new_labels : list (option string) :=
  [ Some "pedestrian"; Some "biker"; Some "car"; Some "biker"; None;
    Some "truck"; None; Some "truck"; None; Some "trafficLight";
    None; None; None; None; None; None; None; None; None; None;
    None; None; None; None; None; None; None; None; None; None;
    None; None; None; None; None; None; None; None; None; None;
    None; None; None; None; None; None; None; None; None; None;
    None; None; None; None; None; None; None; None; None; None;
    None; None; None; None; None; None; None; None; None; None;
    None; None; None; None; None; None; None; None; None; None ].

(** The columns of the returned [pd.DataFrame]. *)
Record BoxFrame : Type := mkBoxFrame {
  col_xmin : list Z;
  col_ymin : list Z;
  col_xmax : list Z;
  col_ymax : list Z;
  col_labels : list string
}.

(** The rows that [iterrows] yields. *)
Fixpoint rows (xmins ymins xmaxs ymaxs : list Z) (labels : list string) : list Box :=
  match xmins, ymins, xmaxs, ymaxs, labels with
  | x0 :: xmins', y0 :: ymins', x1 :: xmaxs', y1 :: ymaxs', l :: labels' =>
      mkBox x0 y0 x1 y1 l :: rows xmins' ymins' xmaxs' ymaxs' labels'
  | _, _, _, _, _ => []
  end.

Definition iterrows (df : BoxFrame) : list Box :=
  rows (col_xmin df) (col_ymin df) (col_xmax df) (col_ymax df) (col_labels df).

(** The body of the loop over the kept indices. *)
Definition keep_box (d : detections) (df : BoxFrame) (i : nat) : result BoxFrame :=
  classID ← index (class_IDs d) i;
  label ← index new_labels classID;
  match label with
  | None => Ok df
  | Some label =>
      b ← index (boxes d) i;
      let '(x, y, w, h) := b in
      Ok (mkBoxFrame (col_xmin df ++ [x]) (col_ymin df ++ [y])
                     (col_xmax df ++ [x + w]) (col_ymax df ++ [y + h])
                     (col_labels df ++ [label]))
  end.

(** [yolo_v3], from the output of the network's forward pass on. *)
Definition yolo_v3 (layer_outputs : list (list (list spec_float))) (W H : Z)
    (confidence_threshold overlap_threshold : spec_float) : result BoxFrame :=
  d ← decode layer_outputs W H confidence_threshold;
  let idxs := NMSBoxes (boxes d) (confidences d) confidence_threshold overlap_threshold in
  let empty := mkBoxFrame [] [] [] [] [] in
  if (0 <? length idxs)%nat then fold_result (keep_box d) empty idxs
  else Ok empty.

(* ================================================================= *)
(** ** [get_selected_frames] *)

(** The summary table: one row per frame, named by [summary_index], and
    one column of counts per label. *)
Record Summary : Type := mkSummary {
  summary_index : list string;
  summary_columns : gmap string (list Z)
}.

(** [table[mask].index]: the row names where the mask holds. *)
Fixpoint select_mask (names : list string) (mask : list bool) : list string :=
  match names, mask with
  | f :: names', m :: mask' =>
      if m then f :: select_mask names' mask' else select_mask names' mask'
  | _, _ => []
  end.

Definition get_selected_frames (summary : Summary) (label : string)
    (min_elts max_elts : Z) : result (list string) :=
  match summary_columns summary !! label with
  | None => Raise (KeyError label)
  | Some column =>
      Ok (select_mask (summary_index summary)
            (zip_with andb (map (fun c => min_elts <=? c) column)
                           (map (fun c => c <=? max_elts) column)))
  end.

(* ================================================================= *)
(** ** Notions used to state the properties of [add_boxes] *)

(** Whether pixel [(y, x)] of an image of shape [sh] belongs to the slice
    [[ymin:ymax, xmin:xmax]] of box [b]. *)
Definition in_rect (sh : nat * nat) (b : Box) (y x : nat) : bool :=
  in_slice (ymin b) (ymax b) (fst sh) y && in_slice (xmin b) (xmax b) (snd sh) x.

(** The geometric rectangle of a box: [ymin <= y < ymax], [xmin <= x < xmax]. *)
Definition in_box (b : Box) (y x : nat) : bool :=
  (ymin b <=? Z.of_nat y) && (Z.of_nat y <? ymax b)
  && (xmin b <=? Z.of_nat x) && (Z.of_nat x <? xmax b).

(** [(pixel + color) / 2], channel by channel, in [float64]. *)
Definition average (v : rgb spec_float) (c : rgb Z) : rgb spec_float :=
  rgb_map2 (fun vi ci => F64.div (F64.add vi (F64.of_Z ci)) (F64.of_Z 2)) v c.

(** What box [b] does to the value [v] of the pixel at [(y, x)]. *)
Definition blend_at (sh : nat * nat) (y x : nat) (v : rgb spec_float) (b : Box)
    : rgb spec_float :=
  if in_rect sh b y x then
    match LABEL_COLORS !! label b with
    | Some c => average v c
    | None => v
    end
  else v.

(** The two in-place statements of the loop body, on the array itself. *)
Definition blend_box (a : array spec_float) (b : Box) (c : rgb Z) : array spec_float :=
  update_rect (rgb_map (fun v => F64.div v (F64.of_Z 2)))
              (ymin b) (ymax b) (xmin b) (xmax b)
    (update_rect (fun v => rgb_map2 F64.add v (rgb_map F64.of_Z c))
                 (ymin b) (ymax b) (xmin b) (xmax b) a).

(** The loop of [add_boxes] on the array itself: the outcome, and the
    array as the loop leaves it. *)
Fixpoint annotate (a : array spec_float) (bs : list Box) : result unit * array spec_float :=
  match bs with
  | [] => (Ok tt, a)
  | b :: bs' =>
      match LABEL_COLORS !! label b with
      | Some c => annotate (blend_box a b c) bs'
      | None => (Raise (KeyError (label b)), a)
      end
  end.

Definition in_palette (b : Box) : Prop := is_Some (LABEL_COLORS !! label b).

(* ================================================================= *)
(** ** Notions used to state the properties of the decoder *)

(** A candidate of the decoder: box, confidence, class. *)
Abbreviation candidate := (Z * Z * Z * Z * spec_float * nat)%type (only parsing).

(** The three parallel lists of a list of candidates. *)
Definition collect (cs : list candidate) : detections :=
  mkDetections (map (fun c => fst (fst c)) cs) (map (fun c => snd (fst c)) cs) (map snd cs).

(** The candidate of one row, if the row passes the threshold. *)
Definition row_candidate (W H : Z) (confidence_threshold : spec_float)
    (detection : list spec_float) : result (option candidate) :=
  let scores := drop 5 detection in
  classID ← argmax scores;
  confidence ← index scores classID;
  if F64.ltb confidence_threshold confidence then
    box ← mul_dims (take 4 detection) W H;
    match map f64_to_int64 box with
    | [centerX; centerY; width; height] =>
        x ← corner centerX width;
        y ← corner centerY height;
        Ok (Some (x, y, width, height, confidence, classID))
    | _ => Raise ValueError
    end
  else Ok None.

(** The candidates of the rows of all layers, in order. *)
Definition layer_candidates (W H : Z) (t : spec_float) (acc : list candidate)
    (output : list (list spec_float)) : result (list candidate) :=
  fold_result (fun acc row => c ← row_candidate W H t row; Ok (acc ++ option_list c))
              acc output.

Definition all_candidates (layer_outputs : list (list (list spec_float))) (W H : Z)
    (t : spec_float) : result (list candidate) :=
  fold_result (layer_candidates W H t) [] layer_outputs.

(** The rows of the three lists, side by side. *)
Definition det_rows (d : detections) : list candidate :=
  zip (zip (boxes d) (confidences d)) (class_IDs d).

(** Two rows that agree everywhere but at index 4. *)
Definition same_but_objectness (r1 r2 : list spec_float) : Prop :=
  length r1 = length r2 /\ forall i, i <> 4%nat -> r1 !! i = r2 !! i.

(** A row one of whose class scores is a NaN. *)
Definition nan_row (row : list spec_float) : Prop :=
  Exists (fun s => F64.is_nan s = true) (drop 5 row).

#[global] Instance nan_row_dec row : Decision (nan_row row).
Proof. unfold nan_row. apply _. Defined.

(** The class of a row: the first index whose score is at least every
    score of the row, with that score. *)
Definition first_max (scores : list spec_float) : option (nat * spec_float) :=
  list_find (fun m => Forall (fun s => F64.leb s m = true) scores) scores.

(** Truncation to an integer, of a number that is finite. *)
Definition trunc_Z (x : spec_float) : Z := default 0 (F64.trunc x).

(** The candidate of a row as the specification words it: the class is
    the argmax of the class scores, the confidence that score; the centre
    and the size are the normalized values times the image dimensions, and
    the corner [center - size / 2] is truncated to an integer; the row is
    kept when the confidence is above the threshold. *)
Definition reference_row (W H : Z) (t : spec_float) (row : list spec_float)
    : list candidate :=
  match row, first_max (drop 5 row) with
  | cx :: cy :: w :: h :: _, Some (classID, confidence) =>
      if F64.ltb t confidence then
        let center_x := F64.mul cx (F64.of_Z W) in
        let center_y := F64.mul cy (F64.of_Z H) in
        let width := F64.mul w (F64.of_Z W) in
        let height := F64.mul h (F64.of_Z H) in
        let x := trunc_Z (F64.sub center_x (F64.div width (F64.of_Z 2))) in
        let y := trunc_Z (F64.sub center_y (F64.div height (F64.of_Z 2))) in
        [(x, y, f64_to_int64 width, f64_to_int64 height, confidence, classID)]
      else []
  | _, _ => []
  end.

Definition reference_decode (layer_outputs : list (list (list spec_float)))
    (W H : Z) (t : spec_float) : list candidate :=
  concat layer_outputs ≫= reference_row W H t.

(** The same with the centre and the size truncated to integers before
    the corner is computed from them. *)
Definition amended_row (W H : Z) (t : spec_float) (row : list spec_float)
    : list candidate :=
  match row, first_max (drop 5 row) with
  | cx :: cy :: w :: h :: _, Some (classID, confidence) =>
      if F64.ltb t confidence then
        let centerX := f64_to_int64 (F64.mul cx (F64.of_Z W)) in
        let centerY := f64_to_int64 (F64.mul cy (F64.of_Z H)) in
        let width := f64_to_int64 (F64.mul w (F64.of_Z W)) in
        let height := f64_to_int64 (F64.mul h (F64.of_Z H)) in
        let x := trunc_Z (F64.sub (F64.of_Z centerX) (F64.div (F64.of_Z width) (F64.of_Z 2))) in
        let y := trunc_Z (F64.sub (F64.of_Z centerY) (F64.div (F64.of_Z height) (F64.of_Z 2))) in
        [(x, y, width, height, confidence, classID)]
      else []
  | _, _ => []
  end.

Definition amended_decode (layer_outputs : list (list (list spec_float)))
    (W H : Z) (t : spec_float) : list candidate :=
  concat layer_outputs ≫= amended_row W H t.

(** A row in the layout [[cx, cy, w, h, objectness, score_0, ...]] with at
    least one class score. *)
Definition well_formed_row (row : list spec_float) : Prop := (6 <= length row)%nat.

(* ================================================================= *)
(** ** Notions used to state the properties of the table and of the frames *)

(** A box none of whose coordinates is read from the far edge of an image
    of shape [sh]: each is either not negative, or at least one length of
    its axis below zero (and then clipped to the near edge). *)
Definition no_wrap (sh : nat * nat) (b : Box) : Prop :=
  (0 <= xmin b \/ xmin b <= - Z.of_nat (snd sh)) /\
  (0 <= xmax b \/ xmax b <= - Z.of_nat (snd sh)) /\
  (0 <= ymin b \/ ymin b <= - Z.of_nat (fst sh)) /\
  (0 <= ymax b \/ ymax b <= - Z.of_nat (fst sh)).

(** The row that the loop of [yolo_v3] appends for the kept index [i]:
    none when the class of the detection has no label. *)
Definition kept_row (d : detections) (i : nat) : option Box :=
  k ← class_IDs d !! i;
  l ← new_labels !! k;
  s ← l;
  b ← boxes d !! i;
  let '(x, y, w, h) := b in
  Some (mkBox x y (x + w) (y + h) s).

(** The columns of a table have the same length. *)
Definition aligned (df : BoxFrame) : Prop :=
  length (col_ymin df) = length (col_xmin df) /\
  length (col_xmax df) = length (col_xmin df) /\
  length (col_ymax df) = length (col_xmin df) /\
  length (col_labels df) = length (col_xmin df).

(** The frames of the summary whose count lies in [[min_elts, max_elts]],
    in the order of the summary. *)
Definition frames_in_range (names : list string) (column : list Z)
    (min_elts max_elts : Z) : list string :=
  fst <$> filter (fun fc => min_elts <= snd fc <= max_elts) (zip names column).

(* ================================================================= *)
(** ** Boxes outside the image, and concrete inputs *)

(** The slice [lo:hi] of an axis of length [len] holds no position. *)
Definition empty_slice (len : nat) (lo hi : Z) : Prop :=
  (slice_bound len hi <= slice_bound len lo)%nat.

(** A box that draws nothing on an image of shape [sh]: its slice of the
    columns or its slice of the rows is empty. *)
Definition draws_nothing (sh : nat * nat) (b : Box) : Prop :=
  empty_slice (snd sh) (xmin b) (xmax b) \/ empty_slice (fst sh) (ymin b) (ymax b).

(** Boxes outside an image of shape [sh]: a box that starts at or beyond
    the right or the bottom edge, a box that ends at least one image
    length before the left or the top edge, and a box that ends at the
    left or at the top edge. *)
Definition outside_image (sh : nat * nat) (b : Box) : Prop :=
  Z.of_nat (snd sh) <= xmin b \/ Z.of_nat (fst sh) <= ymin b \/
  xmax b <= - Z.of_nat (snd sh) \/ ymax b <= - Z.of_nat (fst sh) \/
  xmax b = 0 \/ ymax b = 0.

(** The [float64] nearest to [n / d]. *)
Definition ratio (n d : Z) : spec_float := F64.div (F64.of_Z n) (F64.of_Z d).

Definition example_image : list (list (rgb byte)) :=
  [ [ (x00, x00, x00); (xff, x01, x02) ];
    [ (x00, x00, x00); (x10, x20, x30) ] ].

Definition example_boxes : list Box :=
  [ mkBox 1 0 2 2 "car"; mkBox 0 1 5 5 "truck" ].

Definition example_summary : Summary :=
  mkSummary ["frame_a.jpg"; "frame_b.jpg"; "frame_c.jpg"]
            {[ "car" := [10; 3; 25]; "truck" := [0; 1; 0] ]}.

(** One layer of three rows with two class scores each. *)
Definition example_output : list (list (list spec_float)) :=
  [ [ [ratio 1 2; ratio 1 2; ratio 1 5; ratio 1 5; ratio 1 10; ratio 9 10; ratio 1 10];
      [ratio 1 2; ratio 1 2; ratio 1 5; ratio 1 5; ratio 1 10; ratio 2 5; ratio 2 5];
      [ratio 1 10; ratio 1 10; ratio 1 20; ratio 1 20; ratio 1 10; ratio 3 10; ratio 1 5] ] ].

(** A further layer, of one row with a NaN among its class scores. *)
Definition example_nan_layer : list (list spec_float) :=
  [ [ratio 1 2; ratio 1 2; ratio 1 5; ratio 1 5; ratio 1 10; S754_nan; ratio 9 10] ].

(** The same with other objectness entries. *)
Definition example_output' : list (list (list spec_float)) :=
  [ [ [ratio 1 2; ratio 1 2; ratio 1 5; ratio 1 5; ratio 9 10; ratio 9 10; ratio 1 10];
      [ratio 1 2; ratio 1 2; ratio 1 5; ratio 1 5; ratio 0 1; ratio 2 5; ratio 2 5];
      [ratio 1 10; ratio 1 10; ratio 1 20; ratio 1 20; ratio 1 2; ratio 3 10; ratio 1 5] ] ].

(* ================================================================= *)
(** ** Notions used to state the properties of the suppression *)

(** The selections of greedy suppression, as a relation between the
    candidates that remain and the indices that end up kept. *)
Inductive greedy_nms (thr : spec_float) : list cand -> list nat -> Prop :=
| nms_done : greedy_nms thr [] []
| nms_keep remaining c kept :
    c ∈ remaining ->
    (* no remaining box has a higher confidence *)
    (forall c', c' ∈ remaining -> F64.ltb (cand_conf c) (cand_conf c') = false) ->
    (* and those listed before it have a lower one *)
    (forall c', c' ∈ remaining -> (cand_idx c' < cand_idx c)%nat ->
                F64.ltb (cand_conf c') (cand_conf c) = true) ->
    greedy_nms thr
      (filter (fun c' => cand_idx c' <> cand_idx c /\ F64.ltb thr (iou (cand_box c) (cand_box c')) = false)
              remaining)
      kept ->
    greedy_nms thr remaining (cand_idx c :: kept).

(** Candidates are listed by increasing index, and none has a NaN
    confidence. *)
Definition listed (l : list cand) : Prop :=
  StronglySorted (fun a b => (cand_idx a < cand_idx b)%nat) l /\
  Forall (fun c => F64.is_nan (cand_conf c) = false) l.

(* ================================================================= *)
(** ** Magnitudes of floating-point numbers, and proof tactics *)

(** [x] is a zero or a finite number below [2 ^ B] in magnitude. *)
Definition small (B : Z) (x : spec_float) : Prop :=
  match x with
  | S754_zero _ => True
  | S754_finite _ m e => Zpos (digits2_pos m) + e <= B
  | S754_infinity _ | S754_nan => False
  end.

Ltac float_cases :=
  repeat match goal with
         | x : spec_float |- _ => destruct x as [[]|[]| |[] ? ?]
         end;
  unfold F64.ltb, F64.leb, SFltb, SFleb, SFcompare, F64.is_nan; simpl;
  try (intros; discriminate); try (intros; reflexivity).

Ltac compare_cases :=
  change (Pos.compare_cont Eq) with Pos.compare;
  repeat match goal with
         | |- context [Z.compare ?a ?b] => destruct (Z.compare_spec a b); subst
         | |- context [Pos.compare ?a ?b] => destruct (Pos.compare_spec a b); subst
         end;
  simpl; intros; try discriminate; try reflexivity; try lia.

(* ================================================================= *)
(** ** The rows of the decoder and the loop over the kept indices *)

(** The outcome of every row, in order: a candidate, or nothing for a row
    under the threshold; the first exception ends it. *)
Fixpoint rows_candidates (W H : Z) (t : spec_float) (rows : list (list spec_float))
    : result (list (option candidate)) :=
  match rows with
  | [] => Ok []
  | row :: rows' =>
      c ← row_candidate W H t row;
      cs ← rows_candidates W H t rows';
      Ok (c :: cs)
  end.

(** The loop of [yolo_v3] over the kept indices [idxs]. *)
Definition kept_boxes (d : detections) (idxs : list nat) : result BoxFrame :=
  let empty := mkBoxFrame [] [] [] [] [] in
  if (0 <? length idxs)%nat then fold_result (keep_box d) empty idxs
  else Ok empty.

(* ================================================================= *)
(** ** Notions used to state further properties of [add_boxes] *)

(** The value of an 8-bit channel. *)
Definition u8 (b : byte) : Z := Z.of_N (Byte.to_N b).

(** The boxes of the table whose slice holds the pixel [(y, x)], in the
    order of the table, and their colours. *)
Definition covering (sh : nat * nat) (y x : nat) (bs : list Box) : list Box :=
  filter (fun b => in_rect sh b y x = true) bs.

Definition colors_at (sh : nat * nat) (y x : nat) (bs : list Box) : list (rgb Z) :=
  omap (fun b => LABEL_COLORS !! label b) (covering sh y x bs).

(** The average of a pixel and a colour in integers, rounded down. *)
Definition mix (p : rgb byte) (c : rgb Z) : rgb byte :=
  rgb_map2 (fun pi ci => byte_of_Z ((u8 pi + ci) / 2)) p c.

(** The slice [lo:hi] of an axis of length [len] is empty because the box
    crosses the near edge of the axis without being longer than the axis. *)
Definition crosses_edge (len : nat) (lo hi : Z) : Prop :=
  lo < 0 <= hi /\ hi - lo <= Z.of_nat len.

(** The slice [lo:hi] is empty because its bounds are in the wrong order,
    on one side of zero. *)
Definition reversed (lo hi : Z) : Prop :=
  hi <= lo /\ (0 <= hi \/ lo < 0).

Definition undrawn (sh : nat * nat) (b : Box) : Prop :=
  crosses_edge (snd sh) (xmin b) (xmax b) \/ crosses_edge (fst sh) (ymin b) (ymax b) \/
  reversed (xmin b) (xmax b) \/ reversed (ymin b) (ymax b).

(* ================================================================= *)
(** ** [create_summary] and the ground truth of [main] *)

(** The order of Python on strings. *)
Definition str_le (a b : string) : Prop := String.leb a b = true.

#[global] Instance str_le_dec a b : Decision (str_le a b).
Proof. unfold str_le. apply _. Defined.

(** [pd.get_dummies(table, columns=['label'])] on a table with the columns
    [frame] and [label]: the column [frame] stays, and [label] is replaced
    by one column [label_v] for every value [v] it takes, which holds 1 in
    the rows whose label is [v] and 0 in the others. *)
Definition get_dummies (table : list (string * string))
    : list string * gmap string (list Z) :=
  (table.*1,
   list_to_map ((fun v => ("label_" +:+ v,
                           (fun r : string * string => if decide (r.2 = v) then 1 else 0)
                             <$> table))
                <$> remove_dups table.*2)).

(** The sum of a column over the rows of frame [f]. *)
Definition group_sum (frames : list string) (column : list Z) (f : string) : Z :=
  foldr Z.add 0 (filter (fun fc : string * Z => fc.1 = f) (zip frames column)).*2.

(** [table.groupby(['frame']).sum()]: one row for every frame, the frames
    in increasing order; each column holds, for a frame, the sum of its
    entries in the rows of that frame. *)
Definition groupby_sum (frames : list string) (columns : gmap string (list Z)) : Summary :=
  let index := merge_sort str_le (remove_dups frames) in
  mkSummary index ((fun column => group_sum frames column <$> index) <$> columns).

(** The metadata: one row per labelled object, with the name of the frame
    and the box. *)
Definition create_summary (metadata : list (string * Box)) : Summary :=
  let one_hot_encoded :=
    get_dummies ((fun r : string * Box => (r.1, label r.2)) <$> metadata) in
  groupby_sum one_hot_encoded.1 one_hot_encoded.2.

(** [metadata[metadata.frame == selected_frame].drop(columns=['frame'])] *)
Definition ground_truth (metadata : list (string * Box)) (selected_frame : string)
    : list Box :=
  (filter (fun r : string * Box => r.1 = selected_frame) metadata).*2.

(** The number of boxes with label [v]. *)
Definition count_label (v : string) (bs : list Box) : Z :=
  Z.of_nat (length (filter (fun b => label b = v) bs)).

#[global] Instance str_le_total : Total str_le.
Proof. intros a b. unfold str_le. apply String.leb_total. Qed.

(* ================================================================= *)
(** ** Slices and conversions *)

Lemma lookup_map_slice {A} (f : A -> A) len start stop (l : list A) i :
  map_slice f len start stop l !! i
  = (fun a => if in_slice start stop len i then f a else a) <$> l !! i.
Proof. unfold map_slice. apply list_lookup_imap. Qed.

Lemma length_map_slice {A} (f : A -> A) len start stop (l : list A) :
  length (map_slice f len start stop l) = length l.
Proof. unfold map_slice. apply length_imap. Qed.

Lemma map_slice_id {A} (f : A -> A) len start stop (l : list A) :
  (forall i a, l !! i = Some a -> in_slice start stop len i = true -> f a = a) ->
  map_slice f len start stop l = l.
Proof.
  intros Hid. apply list_eq. intros i. rewrite lookup_map_slice.
  destruct (l !! i) as [a|] eqn:Hi; simpl; [|reflexivity].
  destruct (in_slice start stop len i) eqn:Hs; [|reflexivity].
  f_equal. eauto.
Qed.

Lemma shape_update_rect {A} (f : rgb A -> rgb A) y0 y1 x0 x1 (a : array A) :
  shape (update_rect f y0 y1 x0 x1 a) = shape a.
Proof.
  unfold update_rect, shape. rewrite length_map_slice. f_equal.
  destruct a as [|row a]; [reflexivity|].
  unfold map_slice at 1. simpl.
  destruct (in_slice y0 y1 _ 0); [apply length_map_slice | reflexivity].
Qed.

Lemma pixel_update_rect {A} (f : rgb A -> rgb A) y0 y1 x0 x1 (a : array A) y x :
  pixel (update_rect f y0 y1 x0 x1 a) y x
  = (fun v => if in_slice y0 y1 (fst (shape a)) y && in_slice x0 x1 (snd (shape a)) x
              then f v else v) <$> pixel a y x.
Proof.
  unfold pixel, update_rect.
  destruct (shape a) as [H W] eqn:Hsh. simpl.
  rewrite lookup_map_slice.
  destruct (a !! y) as [row|]; simpl; [|reflexivity].
  destruct (in_slice y0 y1 H y); simpl.
  - apply lookup_map_slice.
  - destruct (row !! x); reflexivity.
Qed.

Lemma row_length_update_rect {A} (f : rgb A -> rgb A) y0 y1 x0 x1 (a : array A) y :
  length <$> update_rect f y0 y1 x0 x1 a !! y = length <$> a !! y.
Proof.
  unfold update_rect. destruct (shape a) as [H W].
  rewrite lookup_map_slice. destruct (a !! y) as [row|]; simpl; [|reflexivity].
  destruct (in_slice y0 y1 H y); [|reflexivity].
  f_equal. apply length_map_slice.
Qed.

Lemma update_rect_id {A} (f : rgb A -> rgb A) y0 y1 x0 x1 (a : array A) :
  (forall y x, in_slice y0 y1 (fst (shape a)) y && in_slice x0 x1 (snd (shape a)) x = false) ->
  update_rect f y0 y1 x0 x1 a = a.
Proof.
  intros Hout. unfold update_rect. destruct (shape a) as [H W]. simpl in Hout.
  apply map_slice_id. intros y row _ Hy.
  apply map_slice_id. intros x v _ Hx.
  specialize (Hout y x). rewrite Hy, Hx in Hout. discriminate.
Qed.

Lemma pixel_map {A B} (f : rgb A -> rgb B) (a : array A) y x :
  pixel (map (map f) a) y x = f <$> pixel a y x.
Proof.
  unfold pixel. rewrite list_lookup_fmap.
  destruct (a !! y) as [row|]; simpl; [|reflexivity].
  apply list_lookup_fmap.
Qed.

Lemma shape_map {A B} (f : rgb A -> rgb B) (a : array A) :
  shape (map (map f) a) = shape a.
Proof.
  unfold shape. rewrite length_map. f_equal.
  destruct a; simpl; [reflexivity | apply length_map].
Qed.

(** A slice that starts at or after the end of the axis is empty. *)
Lemma in_slice_beyond start stop len i :
  0 <= start -> Z.of_nat len <= start -> in_slice start stop len i = false.
Proof.
  intros H0 Hlen. unfold in_slice. apply bool_decide_eq_false.
  unfold slice_bound.
  destruct (Z.ltb_spec start 0); [lia|].
  destruct (Z.ltb_spec stop 0); lia.
Qed.

(** For a start that is not negative, the slice is the interval clipped
    to the axis. *)
Lemma in_slice_nonneg start stop len i :
  0 <= start -> 0 <= stop -> (i < len)%nat ->
  in_slice start stop len i = (start <=? Z.of_nat i) && (Z.of_nat i <? stop).
Proof.
  intros H0 H1 Hi. unfold in_slice, slice_bound.
  destruct (Z.ltb_spec start 0); [lia|].
  apply eq_true_iff_eq. rewrite bool_decide_eq_true, andb_true_iff.
  rewrite Z.leb_le, Z.ltb_lt.
  destruct (Z.ltb_spec stop 0); lia.
Qed.

(** A bound that is not negative, or that lies at least one length of the
    axis below zero, is not read from the far edge: the slice is the
    interval clipped to the axis. *)
Lemma in_slice_unwrapped start stop len i :
  0 <= start \/ start <= - Z.of_nat len ->
  0 <= stop \/ stop <= - Z.of_nat len ->
  (i < len)%nat ->
  in_slice start stop len i = (start <=? Z.of_nat i) && (Z.of_nat i <? stop).
Proof.
  intros H0 H1 Hi. unfold in_slice, slice_bound.
  apply eq_true_iff_eq. rewrite bool_decide_eq_true, andb_true_iff.
  rewrite Z.leb_le, Z.ltb_lt.
  destruct (Z.ltb_spec start 0), (Z.ltb_spec stop 0); lia.
Qed.

Lemma slice_bound_le len i : (slice_bound len i <= len)%nat.
Proof. unfold slice_bound. destruct (Z.ltb_spec i 0); lia. Qed.

Lemma in_slice_empty lo hi len i :
  (slice_bound len hi <= slice_bound len lo)%nat -> in_slice lo hi len i = false.
Proof. intros Hb. unfold in_slice. apply bool_decide_eq_false. lia. Qed.

Lemma u8_roundtrip b : f64_to_u8 (u8_to_f64 b) = b.
Proof. destruct b; vm_compute; reflexivity. Qed.

Lemma rgb_map_roundtrip (p : rgb byte) : rgb_map f64_to_u8 (rgb_map u8_to_f64 p) = p.
Proof. destruct p as [[r g] b]. simpl. rewrite !u8_roundtrip. reflexivity. Qed.

(* ================================================================= *)
(** ** The loop of [add_boxes] *)

Lemma add_boxes_body_run image a b (h : list ndarray) :
  h !! image = Some (Float64 a) ->
  add_boxes_body image b h =
    match LABEL_COLORS !! label b with
    | Some c => (Ok tt, <[image := Float64 (blend_box a b c)]> h)
    | None => (Raise (KeyError (label b)), h)
    end.
Proof.
  intros Hl. unfold add_boxes_body, bind, getitem.
  destruct (LABEL_COLORS !! label b) as [c|]; [|reflexivity].
  unfold ret, iadd_rect, idiv_rect, bind, load, store. rewrite Hl.
  rewrite list_lookup_insert_eq by (eapply lookup_lt_Some; eauto).
  rewrite list_insert_insert_eq. reflexivity.
Qed.

Lemma for_each_annotate image bs : forall a (h : list ndarray),
  h !! image = Some (Float64 a) ->
  for_each (add_boxes_body image) bs h
  = (fst (annotate a bs), <[image := Float64 (snd (annotate a bs))]> h).
Proof.
  induction bs as [|b bs IH]; intros a h Hl; simpl.
  - unfold ret. rewrite list_insert_id by assumption. reflexivity.
  - unfold bind. rewrite (add_boxes_body_run _ _ _ _ Hl).
    destruct (LABEL_COLORS !! label b) as [c|]; simpl.
    + rewrite (IH (blend_box a b c)).
      * rewrite list_insert_insert_eq. reflexivity.
      * apply list_lookup_insert_eq. eapply lookup_lt_Some; eauto.
    + rewrite list_insert_id by assumption. reflexivity.
Qed.

(** [add_boxes] in one step: the caller's store is extended by the
    working copy and, unless a label is unknown, by the returned image. *)
Lemma add_boxes_run image px bs (h : list ndarray) :
  h !! image = Some (Uint8 px) ->
  add_boxes image bs h =
    let a0 := map (map (rgb_map u8_to_f64)) px in
    match annotate a0 bs with
    | (Ok _, a) =>
        (Ok (S (length h)),
         h ++ [Float64 a; Uint8 (map (map (rgb_map f64_to_u8)) a)])
    | (Raise e, a) => (Raise e, h ++ [Float64 a])
    end.
Proof.
  intros Hl. unfold add_boxes, astype_float64, astype_uint8, bind at 1 2, load.
  rewrite Hl. unfold alloc, bind at 1.
  set (a0 := map (map (rgb_map u8_to_f64)) px).
  rewrite (for_each_annotate _ _ a0) by (rewrite lookup_app_r, Nat.sub_diag by lia; reflexivity).
  assert (Hins : forall a, <[length h := a]> (h ++ [Float64 a0]) = h ++ [a]).
  { intros a. rewrite insert_app_r_alt, Nat.sub_diag by lia. reflexivity. }
  rewrite Hins. simpl.
  destruct (annotate a0 bs) as [[[]|e] a]; simpl; [|reflexivity].
  unfold bind. rewrite lookup_app_r, Nat.sub_diag by lia. simpl.
  rewrite length_app. simpl. rewrite Nat.add_1_r, <- app_assoc. reflexivity.
Qed.

Lemma shape_blend_box a b c : shape (blend_box a b c) = shape a.
Proof. unfold blend_box. rewrite !shape_update_rect. reflexivity. Qed.

Lemma row_length_blend_box a b c y :
  length <$> blend_box a b c !! y = length <$> a !! y.
Proof. unfold blend_box. rewrite !row_length_update_rect. reflexivity. Qed.

Lemma pixel_blend_box a b c y x :
  LABEL_COLORS !! label b = Some c ->
  pixel (blend_box a b c) y x = (fun v => blend_at (shape a) y x v b) <$> pixel a y x.
Proof.
  intros Hc. unfold blend_box. rewrite !pixel_update_rect, shape_update_rect.
  destruct (pixel a y x) as [v|]; simpl; [|reflexivity].
  unfold blend_at, in_rect. rewrite Hc.
  destruct (in_slice _ _ _ y && in_slice _ _ _ x); [|reflexivity].
  destruct v as [[r g] bl], c as [[cr cg] cb]. reflexivity.
Qed.

Lemma annotate_shape bs : forall a, shape (snd (annotate a bs)) = shape a.
Proof.
  induction bs as [|b bs IH]; intros a; simpl; [reflexivity|].
  destruct (LABEL_COLORS !! label b); [|reflexivity].
  rewrite IH. apply shape_blend_box.
Qed.

Lemma annotate_row_length bs : forall a y,
  length <$> snd (annotate a bs) !! y = length <$> a !! y.
Proof.
  induction bs as [|b bs IH]; intros a y; simpl; [reflexivity|].
  destruct (LABEL_COLORS !! label b); [|reflexivity].
  rewrite IH. apply row_length_blend_box.
Qed.

(** With every label in the palette the loop ends normally, and each
    pixel has gone through the blends of the boxes in order. *)
Lemma annotate_ok bs : forall a,
  Forall in_palette bs ->
  fst (annotate a bs) = Ok tt /\
  forall y x, pixel (snd (annotate a bs)) y x
              = (fun v => foldl (blend_at (shape a) y x) v bs) <$> pixel a y x.
Proof.
  induction bs as [|b bs IH]; intros a Hpal; simpl.
  - split; [reflexivity|]. intros y x. destruct (pixel a y x); reflexivity.
  - inversion Hpal as [|? ? [c Hc] Hpal']; subst. rewrite Hc.
    destruct (IH (blend_box a b c) Hpal') as [Hok Hpx]. split; [exact Hok|].
    intros y x. rewrite Hpx, shape_blend_box, (pixel_blend_box _ _ _ _ _ Hc).
    destruct (pixel a y x); reflexivity.
Qed.

(** The loop fails exactly when some label is unknown, with that label. *)
Lemma annotate_raise bs : forall a e,
  fst (annotate a bs) = Raise e ->
  exists b, b ∈ bs /\ LABEL_COLORS !! label b = None /\ e = KeyError (label b).
Proof.
  induction bs as [|b bs IH]; intros a e; simpl; [discriminate|].
  destruct (LABEL_COLORS !! label b) as [c|] eqn:Hc.
  - intros He. destruct (IH _ _ He) as (b' & Hin & Hb'). exists b'. split; [|exact Hb'].
    apply elem_of_cons. right. exact Hin.
  - simpl. intros [= <-]. exists b. split; [apply elem_of_cons; left; reflexivity|].
    split; [exact Hc | reflexivity].
Qed.

Lemma annotate_ok_palette bs : forall a,
  fst (annotate a bs) = Ok tt -> Forall in_palette bs.
Proof.
  induction bs as [|b bs IH]; intros a; simpl; [constructor|].
  destruct (LABEL_COLORS !! label b) as [c|] eqn:Hc; [|discriminate].
  intros Hok. constructor; [exists c; exact Hc | eapply IH; eauto].
Qed.

(** A pixel that no box covers keeps its value through the loop, whatever
    the outcome. *)
Lemma annotate_outside bs : forall a y x,
  (forall b, b ∈ bs -> in_rect (shape a) b y x = false) ->
  pixel (snd (annotate a bs)) y x = pixel a y x.
Proof.
  induction bs as [|b bs IH]; intros a y x Hout; simpl; [reflexivity|].
  destruct (LABEL_COLORS !! label b) as [c|] eqn:Hc; [|reflexivity].
  rewrite IH.
  - rewrite (pixel_blend_box _ _ _ _ _ Hc). destruct (pixel a y x) as [v|]; [|reflexivity].
    simpl. unfold blend_at. rewrite Hout by (apply elem_of_cons; left; reflexivity).
    reflexivity.
  - intros b' Hb'. rewrite shape_blend_box. apply Hout, elem_of_cons. right. exact Hb'.
Qed.

(** Boxes whose slices are empty leave the array as it is. *)
Lemma annotate_id bs : forall a,
  Forall in_palette bs ->
  (forall b y x, b ∈ bs -> in_rect (shape a) b y x = false) ->
  annotate a bs = (Ok tt, a).
Proof.
  induction bs as [|b bs IH]; intros a Hpal Hout; simpl; [reflexivity|].
  inversion Hpal as [|? ? [c Hc] Hpal']; subst. rewrite Hc.
  assert (Hb : blend_box a b c = a).
  { assert (Ho : forall y x, in_rect (shape a) b y x = false)
      by (intros; apply Hout, elem_of_cons; left; reflexivity).
    unfold blend_box. rewrite (update_rect_id _ _ _ _ _ a) by exact Ho.
    apply update_rect_id. exact Ho. }
  rewrite Hb. apply IH; [exact Hpal'|].
  intros b' y x Hb'. apply Hout, elem_of_cons. right. exact Hb'.
Qed.

Lemma map_map_roundtrip (px : list (list (rgb byte))) :
  map (map (rgb_map f64_to_u8)) (map (map (rgb_map u8_to_f64)) px) = px.
Proof.
  rewrite map_map. rewrite <- (map_id px) at 2. apply map_ext. intros row.
  rewrite map_map. rewrite <- (map_id row) at 2. apply map_ext. intros p.
  apply rgb_map_roundtrip.
Qed.

(* ================================================================= *)
(** ** Properties of [add_boxes] *)

Lemma in_rect_in_box sh b y x :
  no_wrap sh b -> (y < fst sh)%nat -> (x < snd sh)%nat ->
  in_rect sh b y x = in_box b y x.
Proof.
  intros (Hx0 & Hx1 & Hy0 & Hy1) Hy Hx. unfold in_rect, in_box.
  rewrite !in_slice_unwrapped by assumption. rewrite andb_assoc. reflexivity.
Qed.

(** With every label in the palette [add_boxes] returns an image, each
    pixel of which has gone through the blends of the boxes in order. *)
Lemma add_boxes_ok (h : list ndarray) image px bs :
  h !! image = Some (Uint8 px) ->
  Forall in_palette bs ->
  exists out px' h',
    add_boxes image bs h = (Ok out, h') /\
    h' !! out = Some (Uint8 px') /\
    forall y x,
      pixel px' y x
      = (fun p => rgb_map f64_to_u8
                    (foldl (blend_at (shape px) y x) (rgb_map u8_to_f64 p) bs))
        <$> pixel px y x.
Proof.
  intros Hl Hpal. rewrite (add_boxes_run _ _ _ _ Hl). cbv zeta.
  set (a0 := map (map (rgb_map u8_to_f64)) px).
  destruct (annotate_ok bs a0 Hpal) as [Hok Hpx].
  destruct (annotate a0 bs) as [r a] eqn:Ha. simpl in Hok, Hpx. subst r.
  eexists _, _, _. split; [reflexivity|]. split.
  - rewrite lookup_app_r, Nat.sub_succ_l, Nat.sub_diag by lia. reflexivity.
  - intros y x. rewrite pixel_map, Hpx. unfold a0. rewrite pixel_map, shape_map.
    destruct (pixel px y x); reflexivity.
Qed.

(** C4, as amended. With every label in the palette, [add_boxes] returns
    an image in which each pixel is the 8-bit truncation of a [float64]
    value: the input pixel, taken through [(pixel + color) / 2] once for
    every box whose slice [[ymin:ymax, xmin:xmax]] holds the pixel, in the
    order of the boxes, each blend reading the result of the ones before.
    For a box none of whose coordinates is read from the far edge (each
    is not negative, or at least one image length below zero) that slice
    is the box's geometric rectangle within the image. *)
Theorem add_boxes_blends_in_order (h : list ndarray) image px bs :
  h !! image = Some (Uint8 px) ->
  Forall in_palette bs ->
  (exists out px' h',
     add_boxes image bs h = (Ok out, h') /\
     h' !! out = Some (Uint8 px') /\
     forall y x,
       pixel px' y x
       = (fun p => rgb_map f64_to_u8
                     (foldl (blend_at (shape px) y x) (rgb_map u8_to_f64 p) bs))
         <$> pixel px y x) /\
  (forall b y x, b ∈ bs -> no_wrap (shape px) b ->
     (y < fst (shape px))%nat -> (x < snd (shape px))%nat ->
     in_rect (shape px) b y x = in_box b y x).
Proof.
  intros Hl Hpal. split; [apply add_boxes_ok; assumption|].
  intros. apply in_rect_in_box; assumption.
Qed.

(** C8, as amended. [add_boxes] leaves every array of the caller's store
    as it was, the source image among them, also when it raises; the
    image it returns is a new array with the shape and the row lengths of
    the source, and a pixel outside the slice [[ymin:ymax, xmin:xmax]] of
    every box has the value it has in the source. For boxes none of
    whose coordinates is read from the far edge (each is not negative, or
    at least one image length below zero) the slices are the geometric
    rectangles within the image. *)
Theorem add_boxes_preserves_source (h : list ndarray) image px bs r h' :
  h !! image = Some (Uint8 px) ->
  add_boxes image bs h = (r, h') ->
  h' !! image = Some (Uint8 px) /\
  (forall l a, h !! l = Some a -> h' !! l = Some a) /\
  (forall out, r = Ok out ->
     h !! out = None /\
     exists px',
       h' !! out = Some (Uint8 px') /\
       shape px' = shape px /\
       (forall y, length <$> px' !! y = length <$> px !! y) /\
       (forall y x, (forall b, b ∈ bs -> in_rect (shape px) b y x = false) ->
                    pixel px' y x = pixel px y x) /\
       (Forall (no_wrap (shape px)) bs ->
        forall y x, (y < fst (shape px))%nat -> (x < snd (shape px))%nat ->
                    (forall b, b ∈ bs -> in_box b y x = false) ->
                    pixel px' y x = pixel px y x)).
Proof.
  intros Hl Hrun. rewrite (add_boxes_run _ _ _ _ Hl) in Hrun. cbv zeta in Hrun.
  set (a0 := map (map (rgb_map u8_to_f64)) px) in Hrun.
  pose proof (annotate_shape bs a0) as Hsh.
  pose proof (annotate_row_length bs a0) as Hrow.
  pose proof (annotate_outside bs a0) as Hout.
  destruct (annotate a0 bs) as [[[]|e] a]; simpl in *;
    injection Hrun as <- <-.
  2:{ split; [apply lookup_app_l_Some; exact Hl|].
      split; [intros; apply lookup_app_l_Some; assumption|]. intros out [=]. }
  split; [apply lookup_app_l_Some; exact Hl|].
  split; [intros; apply lookup_app_l_Some; assumption|].
  intros out [= <-]. split; [apply lookup_ge_None; lia|].
  assert (Hpix : forall y x, (forall b, b ∈ bs -> in_rect (shape px) b y x = false) ->
            pixel (map (map (rgb_map f64_to_u8)) a) y x = pixel px y x).
  { intros y x Hno. rewrite pixel_map, Hout.
    - unfold a0. rewrite pixel_map. destruct (pixel px y x) as [p|]; [|reflexivity].
      simpl. rewrite rgb_map_roundtrip. reflexivity.
    - unfold a0. rewrite shape_map. exact Hno. }
  eexists. split.
  { rewrite lookup_app_r, Nat.sub_succ_l, Nat.sub_diag by lia. reflexivity. }
  split; [rewrite shape_map, Hsh; unfold a0; apply shape_map|].
  split.
  { intros y. rewrite list_lookup_fmap, <- option_fmap_compose.
    transitivity (length <$> a !! y).
    - destruct (a !! y); simpl; [rewrite length_map|]; reflexivity.
    - rewrite Hrow. unfold a0. rewrite list_lookup_fmap.
      destruct (px !! y); simpl; [rewrite length_map|]; reflexivity. }
  split; [exact Hpix|].
  intros Hcoords y x Hy Hx Hno. apply Hpix. intros b Hb.
  rewrite in_rect_in_box; auto.
  rewrite Forall_forall in Hcoords. apply Hcoords. exact Hb.
Qed.

(** C9. [add_boxes] either blends every box and returns the image, or
    raises [KeyError] for a box whose label is not in the palette and
    returns no image; in both cases the caller's arrays, the source image
    among them, are what they were. An image that is returned has every
    box of the list blended into it. *)
Theorem add_boxes_all_or_nothing (h : list ndarray) image px bs r h' :
  h !! image = Some (Uint8 px) ->
  add_boxes image bs h = (r, h') ->
  h' !! image = Some (Uint8 px) /\
  (forall l a, h !! l = Some a -> h' !! l = Some a) /\
  ((Forall in_palette bs /\
    exists out px',
      r = Ok out /\ h' !! out = Some (Uint8 px') /\
      forall y x,
        pixel px' y x
        = (fun p => rgb_map f64_to_u8
                      (foldl (blend_at (shape px) y x) (rgb_map u8_to_f64 p) bs))
          <$> pixel px y x)
   \/
   (exists b, b ∈ bs /\ LABEL_COLORS !! label b = None /\ r = Raise (KeyError (label b)))).
Proof.
  intros Hl Hrun. pose proof Hrun as Hrun'.
  rewrite (add_boxes_run _ _ _ _ Hl) in Hrun. cbv zeta in Hrun.
  set (a0 := map (map (rgb_map u8_to_f64)) px) in Hrun.
  destruct (annotate a0 bs) as [[[]|e] a] eqn:Ha; injection Hrun as <- <-.
  - split; [apply lookup_app_l_Some; exact Hl|].
    split; [intros; apply lookup_app_l_Some; assumption|].
    left. assert (Hpal : Forall in_palette bs).
    { apply (annotate_ok_palette bs a0). rewrite Ha. reflexivity. }
    split; [exact Hpal|].
    destruct (add_boxes_ok _ _ _ _ Hl Hpal) as (out & px' & h'' & Hr & Hout & Hpx).
    rewrite Hrun' in Hr. injection Hr as <- <-.
    exists (S (length h)), px'. auto.
  - split; [apply lookup_app_l_Some; exact Hl|].
    split; [intros; apply lookup_app_l_Some; assumption|].
    right. destruct (annotate_raise bs a0 e) as (b & Hin & Hb & ->).
    { rewrite Ha. reflexivity. }
    exists b. auto.
Qed.

Lemma outside_image_draws_nothing sh b : outside_image sh b -> draws_nothing sh b.
Proof.
  unfold outside_image, draws_nothing, empty_slice, slice_bound.
  intros Hout.
  destruct (Z.ltb_spec (xmin b) 0), (Z.ltb_spec (xmax b) 0),
           (Z.ltb_spec (ymin b) 0), (Z.ltb_spec (ymax b) 0); lia.
Qed.

Lemma in_rect_draws_nothing sh b y x : draws_nothing sh b -> in_rect sh b y x = false.
Proof.
  unfold in_rect. intros [Hx|Hy].
  - rewrite (in_slice_empty (xmin b)) by exact Hx. apply andb_false_r.
  - rewrite (in_slice_empty (ymin b)) by exact Hy. reflexivity.
Qed.

Lemma in_rect_some sh b :
  ~ draws_nothing sh b ->
  exists y x, (y < fst sh)%nat /\ (x < snd sh)%nat /\ in_rect sh b y x = true.
Proof.
  unfold draws_nothing, empty_slice. intros Hdraws.
  exists (slice_bound (fst sh) (ymin b)), (slice_bound (snd sh) (xmin b)).
  pose proof (slice_bound_le (fst sh) (ymax b)).
  pose proof (slice_bound_le (snd sh) (xmax b)).
  split; [lia|]. split; [lia|].
  unfold in_rect, in_slice. apply andb_true_iff.
  split; apply bool_decide_eq_true; lia.
Qed.

(** C1, the claim as stated fails: on a 2 x 2 black image, the box
    [(-2, -2, -1, -1)] has no point in the image, and yet [add_boxes]
    returns an image that differs from the source: the negative bounds
    count from the far edges, so the slice is the pixel [(0, 0)]. *)
Lemma add_boxes_negative_box_changes_image :
  let px := [ [ (x00, x00, x00); (x00, x00, x00) ];
              [ (x00, x00, x00); (x00, x00, x00) ] ] in
  let b := mkBox (-2) (-2) (-1) (-1) "car" in
  in_palette b /\
  (forall y x, in_box b y x = false) /\
  exists out h' px',
    add_boxes 0%nat [b] [Uint8 px] = (Ok out, h') /\
    h' !! out = Some (Uint8 px') /\
    pixel px' 0 0 = Some (x7f, x00, x00) /\
    px' <> px.
Proof.
  intros px b. split; [vm_compute; eauto|]. split.
  - intros y x. unfold in_box, b. simpl.
    destruct (Z.ltb_spec (Z.of_nat y) (-1)); [lia|].
    rewrite andb_false_r. reflexivity.
  - eexists _, _, _. split; [vm_compute; reflexivity|].
    split; [reflexivity|]. split; [reflexivity | discriminate].
Qed.

(** C1, as amended. For boxes with labels of the palette that draw
    nothing, one of their two slices being empty, [add_boxes] raises
    nothing and returns an image identical to the source, which it
    leaves in place. Such are the boxes that start at or beyond the right
    or the bottom edge, whose slice is clipped to nothing, the boxes that
    end at least one image length before the left or the top edge, and
    the boxes that end at the left or at the top edge. Every other box
    has a pixel of the image in its slice: a negative bound is not
    clipped, it counts from the far edge. *)
Theorem add_boxes_outside_unchanged (h : list ndarray) image px bs :
  h !! image = Some (Uint8 px) ->
  Forall (fun b => in_palette b /\ draws_nothing (shape px) b) bs ->
  (exists out h',
     add_boxes image bs h = (Ok out, h') /\
     h' !! out = Some (Uint8 px) /\
     h' !! image = Some (Uint8 px)) /\
  (forall b, outside_image (shape px) b -> draws_nothing (shape px) b) /\
  (forall b, ~ draws_nothing (shape px) b ->
     exists y x, (y < fst (shape px))%nat /\ (x < snd (shape px))%nat /\
                 in_rect (shape px) b y x = true).
Proof.
  intros Hl Hbs. split; [|split].
  - rewrite (add_boxes_run _ _ _ _ Hl). cbv zeta. rewrite annotate_id.
    + eexists _, _. split; [reflexivity|]. split.
      * rewrite lookup_app_r, Nat.sub_succ_l, Nat.sub_diag by lia. simpl.
        rewrite map_map_roundtrip. reflexivity.
      * apply lookup_app_l_Some. exact Hl.
    + eapply Forall_impl; [exact Hbs|]. intros b [Hb _]. exact Hb.
    + intros b y x Hb. rewrite shape_map. apply in_rect_draws_nothing.
      rewrite Forall_forall in Hbs. apply Hbs. exact Hb.
  - intros b. apply outside_image_draws_nothing.
  - intros b. apply in_rect_some.
Qed.

Lemma add_boxes_outside_unchanged_witness :
  let bs := [mkBox 5 (-3) 9 1 "car"; mkBox (-10) (-10) (-5) (-5) "truck";
             mkBox (-3) 0 0 2 "biker"; mkBox 0 7 1 9 "pedestrian"] in
  [Uint8 example_image] !! 0%nat = Some (Uint8 example_image) /\
  Forall (fun b => in_palette b /\ outside_image (shape example_image) b) bs /\
  Forall (fun b => in_palette b /\ draws_nothing (shape example_image) b) bs /\
  exists out h',
    add_boxes 0%nat bs [Uint8 example_image] = (Ok out, h') /\
    h' !! out = Some (Uint8 example_image) /\
    h' !! 0%nat = Some (Uint8 example_image).
Proof.
  intros bs.
  assert (Hout : Forall (fun b => in_palette b /\ outside_image (shape example_image) b) bs).
  { repeat (apply Forall_cons_2;
              [split; [vm_compute; eauto | unfold outside_image; simpl; lia]|]).
    apply Forall_nil_2. }
  assert (Hbs : Forall (fun b => in_palette b /\ draws_nothing (shape example_image) b) bs).
  { repeat (apply Forall_cons_2;
              [split; [vm_compute; eauto
                      | unfold draws_nothing, empty_slice, slice_bound; simpl; lia]|]).
    apply Forall_nil_2. }
  split; [reflexivity|]. split; [exact Hout|]. split; [exact Hbs|].
  apply (add_boxes_outside_unchanged [Uint8 example_image] 0%nat example_image bs
           eq_refl Hbs).
Defined.

(** C4, the claim as stated fails: the rectangle of the box
    [(-1, 0, 1, 2)] holds the pixel [(0, 0)] of a 2 x 2 image, but the
    slice [[-1:1]] of the columns starts at the last column and is empty,
    so the pixel is not averaged with the colour of the box: it stays
    [(0, 0, 0)] where the average is [(127, 0, 0)]. *)
Lemma add_boxes_misses_rectangle :
  let b := mkBox (-1) 0 1 2 "car" in
  in_palette b /\
  LABEL_COLORS !! label b = Some (255, 0, 0) /\
  in_box b 0 0 = true /\
  pixel example_image 0 0 = Some (x00, x00, x00) /\
  rgb_map f64_to_u8 (average (rgb_map u8_to_f64 (x00, x00, x00)) (255, 0, 0))
  = (x7f, x00, x00) /\
  exists out h' px',
    add_boxes 0%nat [b] [Uint8 example_image] = (Ok out, h') /\
    h' !! out = Some (Uint8 px') /\
    pixel px' 0 0 = Some (x00, x00, x00) /\
    px' = example_image.
Proof.
  intros b. split; [vm_compute; eauto|]. split; [vm_compute; reflexivity|].
  split; [reflexivity|]. split; [reflexivity|]. split; [vm_compute; reflexivity|].
  eexists _, _, _. split; [vm_compute; reflexivity|].
  split; [reflexivity|]. split; reflexivity.
Qed.

(** C8, the claim as stated fails: the rectangle of the box
    [(-2, -1, -1, 5)] holds no pixel at all, its columns being negative,
    and yet the pixel [(1, 0)] of a 2 x 2 image, which is outside the
    rectangle, is changed from [(0, 0, 0)] to [(0, 0, 127)]: the negative
    bounds count from the far edges, and the slice is that pixel. *)
Lemma add_boxes_changes_pixel_outside_rectangle :
  let b := mkBox (-2) (-1) (-1) 5 "truck" in
  in_palette b /\
  (forall y x, in_box b y x = false) /\
  pixel example_image 1 0 = Some (x00, x00, x00) /\
  exists out h' px',
    add_boxes 0%nat [b] [Uint8 example_image] = (Ok out, h') /\
    h' !! out = Some (Uint8 px') /\
    shape px' = shape example_image /\
    pixel px' 1 0 = Some (x00, x00, x7f) /\
    pixel px' 1 0 <> pixel example_image 1 0.
Proof.
  intros b. split; [vm_compute; eauto|]. split; [|split; [reflexivity|]].
  - intros y x. unfold in_box, b. simpl.
    destruct (Z.ltb_spec (Z.of_nat x) (-1)); [lia|].
    apply andb_false_r.
  - eexists _, _, _. split; [vm_compute; reflexivity|].
    split; [reflexivity|]. split; [reflexivity|]. split; [reflexivity | discriminate].
Qed.

Lemma example_boxes_in_palette : Forall in_palette example_boxes.
Proof. repeat constructor; vm_compute; eauto. Defined.

Lemma add_boxes_blends_in_order_witness :
  [Uint8 example_image] !! 0%nat = Some (Uint8 example_image) /\
  Forall in_palette example_boxes /\
  exists out px' h',
    add_boxes 0%nat example_boxes [Uint8 example_image] = (Ok out, h') /\
    h' !! out = Some (Uint8 px') /\
    pixel px' 0 0 = Some (x00, x00, x00) /\
    pixel px' 0 1 = Some (xff, x00, x01) /\
    pixel px' 1 0 = Some (x00, x00, x7f) /\
    pixel px' 1 1 = Some (x43, x08, x8b).
Proof.
  split; [reflexivity|]. split; [exact example_boxes_in_palette|].
  destruct (add_boxes_blends_in_order [Uint8 example_image] 0%nat example_image
              example_boxes eq_refl example_boxes_in_palette)
    as [(out & px' & h' & Hrun & Hout & Hpx) _].
  exists out, px', h'. split; [exact Hrun|]. split; [exact Hout|].
  rewrite !Hpx. repeat split; vm_compute; reflexivity.
Defined.

Lemma add_boxes_preserves_source_witness :
  let run := add_boxes 0%nat example_boxes [Uint8 example_image] in
  [Uint8 example_image] !! 0%nat = Some (Uint8 example_image) /\
  add_boxes 0%nat example_boxes [Uint8 example_image] = (fst run, snd run) /\
  snd run !! 0%nat = Some (Uint8 example_image) /\
  exists out px',
    fst run = Ok out /\ snd run !! out = Some (Uint8 px') /\
    shape px' = (2%nat, 2%nat) /\
    pixel px' 0 0 = pixel example_image 0 0.
Proof.
  intros run. split; [reflexivity|]. split; [apply surjective_pairing|].
  destruct (add_boxes_preserves_source [Uint8 example_image] 0%nat example_image
              example_boxes (fst run) (snd run) eq_refl (surjective_pairing _))
    as (Hsrc & _ & Hout).
  split; [exact Hsrc|].
  assert (Hok : fst run = Ok 2%nat) by (vm_compute; reflexivity).
  destruct (Hout 2%nat Hok) as (_ & px' & Hl & Hsh & _ & Hpix & _).
  exists 2%nat, px'. split; [exact Hok|]. split; [exact Hl|]. split; [exact Hsh|].
  apply Hpix. intros b Hb.
  repeat (apply elem_of_cons in Hb as [->|Hb]; [vm_compute; reflexivity|]).
  inversion Hb.
Defined.

Lemma add_boxes_all_or_nothing_witness :
  let bs := [mkBox 1 0 2 2 "car"; mkBox 0 0 1 1 "bus"; mkBox 0 1 5 5 "truck"] in
  let run := add_boxes 0%nat bs [Uint8 example_image] in
  [Uint8 example_image] !! 0%nat = Some (Uint8 example_image) /\
  add_boxes 0%nat bs [Uint8 example_image] = (fst run, snd run) /\
  snd run !! 0%nat = Some (Uint8 example_image) /\
  fst run = Raise (KeyError "bus").
Proof.
  intros bs run. split; [reflexivity|]. split; [apply surjective_pairing|].
  destruct (add_boxes_all_or_nothing [Uint8 example_image] 0%nat example_image
              bs (fst run) (snd run) eq_refl (surjective_pairing _))
    as (Hsrc & _ & [[Hpal _] | (b & Hb & Hnone & Hr)]).
  - exfalso. inversion Hpal as [|? ? _ Hpal']; subst.
    inversion Hpal' as [|? ? [c Hc] _]; subst. vm_compute in Hc. discriminate.
  - split; [exact Hsrc|]. rewrite Hr.
    repeat (apply elem_of_cons in Hb as [->|Hb];
            [first [reflexivity | vm_compute in Hnone; discriminate]|]).
    inversion Hb.
Defined.

(* ================================================================= *)
(** ** The order of floating-point numbers *)

Lemma ltb_trans x y z :
  F64.ltb x y = true -> F64.ltb y z = true -> F64.ltb x z = true.
Proof. float_cases; compare_cases. Qed.

Lemma leb_ltb_trans x y z :
  F64.leb x y = true -> F64.ltb y z = true -> F64.ltb x z = true.
Proof. float_cases; compare_cases. Qed.

Lemma ltb_leb_trans x y z :
  F64.ltb x y = true -> F64.leb y z = true -> F64.ltb x z = true.
Proof. float_cases; compare_cases. Qed.

Lemma leb_trans x y z :
  F64.leb x y = true -> F64.leb y z = true -> F64.leb x z = true.
Proof. float_cases; compare_cases. Qed.

Lemma ltb_leb x y : F64.ltb x y = true -> F64.leb x y = true.
Proof. float_cases; compare_cases. Qed.

Lemma ltb_not_leb x y : F64.ltb x y = true -> F64.leb y x = false.
Proof. float_cases; compare_cases. Qed.

Lemma leb_not_ltb x y : F64.leb x y = true -> F64.ltb y x = false.
Proof. float_cases; compare_cases. Qed.

Lemma not_leb_ltb x y :
  F64.is_nan x = false -> F64.is_nan y = false ->
  F64.leb x y = false -> F64.ltb y x = true.
Proof. float_cases; compare_cases. Qed.

Lemma not_ltb_leb x y :
  F64.is_nan x = false -> F64.is_nan y = false ->
  F64.ltb x y = false -> F64.leb y x = true.
Proof. float_cases; compare_cases. Qed.

Lemma leb_refl x : F64.is_nan x = false -> F64.leb x x = true.
Proof. float_cases; compare_cases. Qed.

Lemma ltb_irrefl x : F64.ltb x x = false.
Proof. float_cases; compare_cases. Qed.

Lemma ltb_not_nan_l x y : F64.ltb x y = true -> F64.is_nan x = false.
Proof. float_cases. Qed.

Lemma ltb_not_nan_r x y : F64.ltb x y = true -> F64.is_nan y = false.
Proof. float_cases. Qed.

(* ================================================================= *)
(** ** Magnitudes of floating-point results *)

Lemma small_mono B B' x : B <= B' -> small B x -> small B' x.
Proof. destruct x; simpl; auto. lia. Qed.

Lemma fexp_eq e : fexp F64.prec F64.emax e = Z.max (e - 53) (-1074).
Proof. reflexivity. Qed.

Lemma Zdigits2_nonneg m : 0 <= Zdigits2 m.
Proof. destruct m; simpl; lia. Qed.

Lemma Zdigits2_log2 m : 0 < m -> Zdigits2 m = Z.log2 m + 1.
Proof.
  destruct m as [|p|p]; try lia. intros _. simpl.
  induction p as [p IH|p IH|]; simpl; [| |reflexivity];
    rewrite Pos2Z.inj_succ; f_equal;
    destruct p; simpl in *; try lia; reflexivity.
Qed.

Lemma Zdigits2_mono a b : 0 <= a <= b -> Zdigits2 a <= Zdigits2 b.
Proof.
  intros [Ha Hab]. destruct (Z.eq_dec a 0) as [->|Hne].
  - apply Zdigits2_nonneg.
  - rewrite !Zdigits2_log2 by lia. pose proof (Z.log2_le_mono a b Hab). lia.
Qed.

Lemma Zdigits2_lt_pow2 m k : 0 <= k -> 0 <= m < 2 ^ k -> Zdigits2 m <= k.
Proof.
  intros Hk [H0 Hm]. destruct (Z.eq_dec m 0) as [->|Hne]; [simpl; lia|].
  rewrite Zdigits2_log2 by lia.
  assert (Z.log2 m < k) by (apply Z.log2_lt_pow2; lia). lia.
Qed.

Lemma Zdigits2_bound m : 0 <= m -> m < 2 ^ Zdigits2 m.
Proof.
  intros H0. destruct (Z.eq_dec m 0) as [->|Hne]; [simpl; lia|].
  rewrite Zdigits2_log2 by lia. apply Z.log2_spec. lia.
Qed.

Lemma Zdigits2_opp m : Zdigits2 (- m) = Zdigits2 m.
Proof. destruct m; reflexivity. Qed.

Lemma Zdigits2_abs m : Zdigits2 (Z.abs m) = Zdigits2 m.
Proof. destruct m; reflexivity. Qed.

Lemma Zdigits2_succ m : 0 <= m -> Zdigits2 (m + 1) <= Zdigits2 m + 1.
Proof.
  intros H0. apply Zdigits2_lt_pow2; [pose proof (Zdigits2_nonneg m); lia|].
  split; [lia|]. pose proof (Zdigits2_bound m H0).
  rewrite Z.pow_add_r by (try apply Zdigits2_nonneg; lia). change (2 ^ 1) with 2. lia.
Qed.

Lemma Zdigits2_shiftl m s : 0 < m -> 0 <= s -> Zdigits2 (Z.shiftl m s) = Zdigits2 m + s.
Proof.
  intros Hm Hs. rewrite Z.shiftl_mul_pow2 by lia.
  assert (0 < 2 ^ s) by (apply Z.pow_pos_nonneg; lia).
  rewrite !Zdigits2_log2 by nia. rewrite Z.log2_mul_pow2 by lia. lia.
Qed.

Lemma digits2_iter_xO m d :
  Zpos (digits2_pos (Pos.iter xO m d)) = Zpos (digits2_pos m) + Zpos d.
Proof.
  induction d as [|d IH] using Pos.peano_ind.
  - simpl. lia.
  - rewrite Pos.iter_succ. simpl. lia.
Qed.

Lemma shr_1_digits mrs :
  0 <= shr_m mrs ->
  0 <= shr_m (shr_1 mrs) /\
  Zdigits2 (shr_m (shr_1 mrs)) = Z.max 0 (Zdigits2 (shr_m mrs) - 1).
Proof.
  destruct mrs as [m r s]. simpl. intros Hm.
  destruct m as [|[p|p|]|p]; simpl; try lia.
Qed.

Lemma iter_shr_1_digits p : forall mrs,
  0 <= shr_m mrs ->
  0 <= shr_m (SpecFloat.iter_pos shr_1 p mrs) /\
  Zdigits2 (shr_m (SpecFloat.iter_pos shr_1 p mrs)) = Z.max 0 (Zdigits2 (shr_m mrs) - Zpos p).
Proof.
  induction p as [p IH|p IH|]; intros mrs Hm; simpl.
  - destruct (shr_1_digits mrs Hm) as [H1 E1].
    destruct (IH _ H1) as [H2 E2]. destruct (IH _ H2) as [H3 E3].
    split; [exact H3|]. rewrite E3, E2, E1. lia.
  - destruct (IH _ Hm) as [H2 E2]. destruct (IH _ H2) as [H3 E3].
    split; [exact H3|]. rewrite E3, E2. lia.
  - apply shr_1_digits. exact Hm.
Qed.

Lemma shr_record_of_loc_m m l : shr_m (shr_record_of_loc m l) = m.
Proof. destruct l as [|[]]; reflexivity. Qed.

Lemma shr_fexp_bound m e l B :
  0 <= m -> -1074 <= B -> Zdigits2 m + e <= B ->
  0 <= shr_m (fst (shr_fexp F64.prec F64.emax m e l)) /\
  Zdigits2 (shr_m (fst (shr_fexp F64.prec F64.emax m e l)))
  + snd (shr_fexp F64.prec F64.emax m e l) <= B.
Proof.
  intros Hm HB Hd. unfold shr_fexp, shr. rewrite fexp_eq.
  pose proof (shr_record_of_loc_m m l) as Hrec.
  destruct (Z.max (Zdigits2 m + e - 53) (-1074) - e) as [|p|p] eqn:Hn; simpl;
    rewrite ?Hrec; try (split; [exact Hm | exact Hd]).
  destruct (iter_shr_1_digits p (shr_record_of_loc m l)) as [H1 E1];
    [rewrite Hrec; exact Hm|].
  split; [exact H1|]. rewrite E1, Hrec. lia.
Qed.

Lemma round_nearest_even_bound m l :
  0 <= m -> m <= round_nearest_even m l <= m + 1.
Proof. intros Hm. destruct l as [|[]]; simpl; try lia. destruct (Z.even m); lia. Qed.

(** Rounding a mantissa below [2 ^ B] gives a number below [2 ^ (B + 1)]. *)
Lemma binary_round_aux_small s m e l B :
  0 <= m -> -1074 <= B <= 970 -> Zdigits2 m + e <= B ->
  small (B + 1) (binary_round_aux F64.prec F64.emax s m e l).
Proof.
  intros Hm HB Hd. unfold binary_round_aux.
  destruct (shr_fexp_bound m e l B Hm ltac:(lia) Hd) as [H1 D1].
  destruct (shr_fexp F64.prec F64.emax m e l) as [mrs' e']. simpl in H1, D1.
  set (m1 := round_nearest_even (shr_m mrs') (loc_of_shr_record mrs')).
  assert (Hm1 : 0 <= m1 /\ Zdigits2 m1 + e' <= B + 1).
  { pose proof (round_nearest_even_bound (shr_m mrs') (loc_of_shr_record mrs') H1) as Hr.
    fold m1 in Hr. split; [lia|].
    pose proof (Zdigits2_mono m1 (shr_m mrs' + 1) ltac:(lia)).
    pose proof (Zdigits2_succ (shr_m mrs') H1). lia. }
  destruct Hm1 as [Hm1 Dm1].
  destruct (shr_fexp_bound m1 e' loc_Exact (B + 1) Hm1 ltac:(lia) Dm1) as [H2 D2].
  destruct (shr_fexp F64.prec F64.emax m1 e' loc_Exact) as [mrs'' e'']. simpl in H2, D2.
  destruct (shr_m mrs'') as [|p|p] eqn:Hp; simpl; [exact I | | lia].
  simpl in D2.
  destruct (Z.leb_spec e'' (F64.emax - F64.prec)) as [|Hgt]; simpl; [exact D2|].
  unfold F64.emax, F64.prec in Hgt. lia.
Qed.

Lemma binary_round_small s m e B :
  -1074 <= B <= 970 -> Zpos (digits2_pos m) + e <= B ->
  small (B + 1) (binary_round F64.prec F64.emax s m e).
Proof.
  intros HB Hd. unfold binary_round, shl_align.
  destruct (fexp F64.prec F64.emax (Zpos (digits2_pos m) + e) - e) as [|d|d] eqn:Hs;
    try (apply binary_round_aux_small; [lia | exact HB | exact Hd]).
  apply binary_round_aux_small; [lia | exact HB |].
  simpl. rewrite digits2_iter_xO. lia.
Qed.

Lemma binary_normalize_small z e sz B :
  -1074 <= B <= 970 -> Zdigits2 z + e <= B ->
  small (B + 1) (binary_normalize F64.prec F64.emax z e sz).
Proof.
  intros HB Hd. destruct z as [|m|m]; simpl; [exact I | |];
    apply binary_round_small; assumption.
Qed.

Lemma of_Z_small z : - 2 ^ 63 <= z < 2 ^ 63 -> small 65 (F64.of_Z z).
Proof.
  intros Hz. unfold F64.of_Z. apply (binary_normalize_small z 0 false 64); [lia|].
  rewrite <- Zdigits2_abs.
  pose proof (Zdigits2_lt_pow2 (Z.abs z) 64). lia.
Qed.

Lemma of_Z_2 : F64.of_Z 2 = S754_finite false 4503599627370496 (-51).
Proof. reflexivity. Qed.

Lemma div_2_small B x :
  -1074 <= B <= 900 -> small B x -> small (B + 52) (F64.div x (F64.of_Z 2)).
Proof.
  intros HB Hx. rewrite of_Z_2. destruct x as [s|s| |s m e]; simpl in *; try tauto.
  unfold F64.div, SFdiv.
  destruct (SFdiv_core_binary F64.prec F64.emax (Zpos m) e 4503599627370496 (-51))
    as [[q e'] lz] eqn:Hcore.
  replace (B + 52) with (B + 51 + 1) by lia.
  unfold SFdiv_core_binary in Hcore. rewrite fexp_eq in Hcore.
  set (e0 := Z.min _ _) in Hcore.
  set (m0 := match e - -51 - e0 with Z0 => Zpos m | Zpos _ => _ | Zneg _ => 0 end) in Hcore.
  assert (Hm0 : 0 <= m0 /\ Zdigits2 m0 + e0 <= Zpos (digits2_pos m) + e + 51).
  { subst m0. destruct (e - -51 - e0) as [|p|p] eqn:Hs.
    - simpl. lia.
    - split; [apply Z.shiftl_nonneg; lia|].
      rewrite Zdigits2_shiftl by lia. simpl. lia.
    - simpl. subst e0. lia. }
  destruct Hm0 as [Hm0 Dm0].
  pose proof (Z_div_mod m0 4503599627370496 ltac:(lia)) as Hdm.
  destruct (Z.div_eucl m0 4503599627370496) as [q0 r0].
  injection Hcore as <- <- _. destruct Hdm as [Hdm Hr].
  assert (Hq : 0 <= q0 <= m0) by nia.
  apply binary_round_aux_small; [lia | lia |].
  pose proof (Zdigits2_mono q0 m0 ltac:(lia)). lia.
Qed.

Lemma cond_Zopp_digits s m : Zdigits2 (cond_Zopp s m) = Zdigits2 m.
Proof. destruct s; simpl; [apply Zdigits2_opp | reflexivity]. Qed.

Lemma shl_align_digits m e e' :
  e' <= e ->
  Zpos (digits2_pos (fst (shl_align m e e'))) + e' = Zpos (digits2_pos m) + e.
Proof.
  intros He. unfold shl_align. destruct (e' - e) as [|d|d] eqn:Hs; simpl; try lia.
  rewrite digits2_iter_xO. lia.
Qed.

Lemma Zdigits2_sub a b k :
  0 <= k -> Zdigits2 a <= k -> Zdigits2 b <= k -> Zdigits2 (a - b) <= k + 1.
Proof.
  intros Hk Ha Hb. rewrite <- Zdigits2_abs. apply Zdigits2_lt_pow2; [lia|].
  pose proof (Zdigits2_bound (Z.abs a) ltac:(lia)) as Ba.
  pose proof (Zdigits2_bound (Z.abs b) ltac:(lia)) as Bb.
  rewrite Zdigits2_abs in Ba, Bb.
  assert (2 ^ Zdigits2 a <= 2 ^ k) by (apply Z.pow_le_mono_r; lia).
  assert (2 ^ Zdigits2 b <= 2 ^ k) by (apply Z.pow_le_mono_r; lia).
  rewrite Z.pow_add_r by lia. change (2 ^ 1) with 2. lia.
Qed.

Lemma sub_small B x y :
  -1074 <= B <= 900 -> small B x -> small B y -> small (B + 2) (F64.sub x y).
Proof.
  intros HB Hx Hy.
  destruct x as [sx|sx| |sx mx ex], y as [sy|sy| |sy my ey]; simpl in *; try tauto.
  - destruct sx, sy; exact I.
  - lia.
  - lia.
  - unfold F64.sub, SFsub.
    replace (B + 2) with (B + 1 + 1) by lia.
    apply binary_normalize_small; [lia|].
    set (ez := Z.min ex ey).
    pose proof (shl_align_digits mx ex ez ltac:(lia)) as Dx.
    pose proof (shl_align_digits my ey ez ltac:(lia)) as Dy.
    set (ax := fst (shl_align mx ex ez)) in *.
    set (ay := fst (shl_align my ey ez)) in *.
    pose proof (Zdigits2_sub (cond_Zopp sx (Zpos ax)) (cond_Zopp sy (Zpos ay))
                  (Z.max (Zpos (digits2_pos ax)) (Zpos (digits2_pos ay)))) as Hsub.
    rewrite !cond_Zopp_digits in Hsub. simpl in Hsub.
    specialize (Hsub ltac:(lia) ltac:(lia) ltac:(lia)). lia.
Qed.

Lemma small_trunc B x : small B x -> py_int x = Ok (default 0 (F64.trunc x)).
Proof. destruct x; simpl; try tauto; reflexivity. Qed.

(** [corner] never raises on 64-bit integers. *)
Lemma corner_int64 c d :
  - 2 ^ 63 <= c < 2 ^ 63 -> - 2 ^ 63 <= d < 2 ^ 63 ->
  corner c d
  = Ok (default 0 (F64.trunc (F64.sub (F64.of_Z c) (F64.div (F64.of_Z d) (F64.of_Z 2))))).
Proof.
  intros Hc Hd. unfold corner. apply (small_trunc 119).
  apply (sub_small 117); [lia | |].
  - eapply small_mono; [|apply of_Z_small; exact Hc]. lia.
  - apply (div_2_small 65); [lia|]. apply of_Z_small. exact Hd.
Qed.

Lemma f64_to_int64_range x : - 2 ^ 63 <= f64_to_int64 x < 2 ^ 63.
Proof.
  unfold f64_to_int64. destruct (F64.trunc x) as [z|]; [|lia].
  destruct (Z.leb_spec (- 2 ^ 63) z), (Z.ltb_spec z (2 ^ 63)); simpl; lia.
Qed.

(* ================================================================= *)
(** ** Properties of the decoder *)

Lemma collect_snoc cs c :
  collect (cs ++ [c])
  = mkDetections (boxes (collect cs) ++ [fst (fst c)])
                 (confidences (collect cs) ++ [snd (fst c)])
                 (class_IDs (collect cs) ++ [snd c]).
Proof. unfold collect. simpl. rewrite !map_app. reflexivity. Qed.

Lemma decode_row_collect W H t cs row :
  decode_row W H t (collect cs) row
  = collect <$> (c ← row_candidate W H t row; Ok (cs ++ option_list c)).
Proof.
  unfold decode_row, row_candidate.
  destruct (argmax (drop 5 row)) as [k|e]; simpl; [|reflexivity].
  destruct (index (drop 5 row) k) as [conf|e]; simpl; [|reflexivity].
  destruct (F64.ltb t conf); simpl; [|rewrite app_nil_r; reflexivity].
  destruct (mul_dims (take 4 row) W H) as [box|e]; simpl; [|reflexivity].
  destruct (map f64_to_int64 box) as [|cX [|cY [|w [|h [|]]]]]; try reflexivity.
  destruct (corner cX w) as [x|e]; simpl; [|reflexivity].
  destruct (corner cY h) as [y|e]; simpl; [|reflexivity].
  rewrite collect_snoc. reflexivity.
Qed.

Lemma decode_layer_collect W H t output : forall cs,
  fold_result (decode_row W H t) (collect cs) output
  = collect <$> layer_candidates W H t cs output.
Proof.
  unfold layer_candidates.
  induction output as [|row output IH]; intros cs; simpl; [reflexivity|].
  rewrite decode_row_collect.
  destruct (row_candidate W H t row) as [c|e]; simpl; [|reflexivity].
  apply IH.
Qed.

Lemma decode_collect layer_outputs W H t :
  decode layer_outputs W H t = collect <$> all_candidates layer_outputs W H t.
Proof.
  unfold decode, all_candidates. change (mkDetections [] [] []) with (collect []).
  generalize (@nil candidate) as cs.
  induction layer_outputs as [|output outs IH]; intros cs; simpl; [reflexivity|].
  rewrite decode_layer_collect.
  destruct (layer_candidates W H t cs output) as [cs'|e]; simpl; [|reflexivity].
  apply IH.
Qed.

Lemma det_rows_collect cs : det_rows (collect cs) = cs.
Proof.
  unfold det_rows, collect. simpl.
  induction cs as [|[[b c] k] cs IH]; simpl; [reflexivity|]. rewrite IH. reflexivity.
Qed.

Lemma row_candidate_mono W H t1 t2 row c1 :
  F64.ltb t1 t2 = true ->
  row_candidate W H t1 row = Ok c1 ->
  exists c2, row_candidate W H t2 row = Ok c2 /\ (c2 = None \/ c2 = c1).
Proof.
  intros Hlt. unfold row_candidate.
  destruct (argmax (drop 5 row)) as [k|e]; simpl; [|discriminate].
  destruct (index (drop 5 row) k) as [conf|e]; simpl; [|discriminate].
  destruct (F64.ltb t2 conf) eqn:H2.
  - rewrite (ltb_trans _ _ _ Hlt H2). intros ->. eauto.
  - intros _. eauto.
Qed.

Lemma layer_candidates_mono W H t1 t2 output :
  F64.ltb t1 t2 = true ->
  forall cs1 cs2 r1,
    sublist cs2 cs1 ->
    layer_candidates W H t1 cs1 output = Ok r1 ->
    exists r2, layer_candidates W H t2 cs2 output = Ok r2 /\ sublist r2 r1.
Proof.
  intros Hlt. unfold layer_candidates.
  induction output as [|row output IH]; intros cs1 cs2 r1 Hsub; simpl.
  - intros [= <-]. eauto.
  - destruct (row_candidate W H t1 row) as [c1|e] eqn:H1; simpl; [|discriminate].
    destruct (row_candidate_mono _ _ _ _ _ _ Hlt H1) as (c2 & -> & Hc). simpl.
    apply IH. destruct Hc as [-> | ->].
    + simpl. rewrite app_nil_r. apply sublist_inserts_r. exact Hsub.
    + apply sublist_app; [exact Hsub | reflexivity].
Qed.

Lemma all_candidates_mono outs W H t1 t2 r1 :
  F64.ltb t1 t2 = true ->
  all_candidates outs W H t1 = Ok r1 ->
  exists r2, all_candidates outs W H t2 = Ok r2 /\ sublist r2 r1.
Proof.
  intros Hlt. unfold all_candidates.
  assert (Hgen : forall cs1 cs2 r1, sublist cs2 cs1 ->
            fold_result (layer_candidates W H t1) cs1 outs = Ok r1 ->
            exists r2, fold_result (layer_candidates W H t2) cs2 outs = Ok r2
                       /\ sublist r2 r1).
  { clear r1. induction outs as [|output outs IH]; intros cs1 cs2 r1 Hsub; simpl.
    - intros [= <-]. eauto.
    - destruct (layer_candidates W H t1 cs1 output) as [m1|e] eqn:H1; simpl; [|discriminate].
      destruct (layer_candidates_mono _ _ _ _ _ Hlt _ _ _ Hsub H1) as (m2 & -> & Hm).
      simpl. apply IH. exact Hm. }
  apply Hgen. reflexivity.
Qed.

(** C7. Raising the confidence threshold only removes candidates: when
    the decoder succeeds at [t1] it succeeds at every [t2 > t1], and the
    candidates (box, confidence, class) kept at [t2] are among those kept
    at [t1], in the same order. *)
Theorem decode_monotone_in_threshold layer_outputs W H t1 t2 d1 :
  F64.ltb t1 t2 = true ->
  decode layer_outputs W H t1 = Ok d1 ->
  exists d2,
    decode layer_outputs W H t2 = Ok d2 /\
    sublist (det_rows d2) (det_rows d1) /\
    forall c, c ∈ det_rows d2 -> c ∈ det_rows d1.
Proof.
  intros Hlt. rewrite !decode_collect.
  destruct (all_candidates layer_outputs W H t1) as [r1|e] eqn:H1; simpl; [|discriminate].
  intros [= <-].
  destruct (all_candidates_mono _ _ _ _ _ _ Hlt H1) as (r2 & -> & Hsub). simpl.
  exists (collect r2). rewrite !det_rows_collect.
  split; [reflexivity|]. split; [exact Hsub|].
  intros c. apply sublist_subseteq. exact Hsub.
Qed.

Lemma same_but_objectness_take r1 r2 :
  same_but_objectness r1 r2 -> take 4 r1 = take 4 r2.
Proof.
  intros [_ Hsame]. apply list_eq. intros i.
  destruct (decide (i < 4)%nat).
  - rewrite !lookup_take_lt by assumption. apply Hsame. lia.
  - rewrite !lookup_take_ge by lia. reflexivity.
Qed.

Lemma same_but_objectness_drop r1 r2 :
  same_but_objectness r1 r2 -> drop 5 r1 = drop 5 r2.
Proof.
  intros [_ Hsame]. apply list_eq. intros i.
  rewrite !lookup_drop. apply Hsame. lia.
Qed.

(** C10. Two raw outputs that differ only in the objectness entries
    (index 4) of their rows decode to the same result under the same
    threshold: the same three lists, or the same exception. *)
Theorem decode_ignores_objectness outs1 outs2 W H t :
  Forall2 (Forall2 same_but_objectness) outs1 outs2 ->
  decode outs1 W H t = decode outs2 W H t.
Proof.
  intros Hsame. unfold decode. generalize (mkDetections [] [] []) as acc.
  induction Hsame as [|o1 o2 outs1 outs2 Ho _ IH]; intros acc; simpl; [reflexivity|].
  assert (Hlayer : forall acc,
            fold_result (decode_row W H t) acc o1 = fold_result (decode_row W H t) acc o2).
  { clear acc. induction Ho as [|r1 r2 o1 o2 Hr _ IHo]; intros acc; simpl; [reflexivity|].
    assert (Hrow : decode_row W H t acc r1 = decode_row W H t acc r2).
    { unfold decode_row.
      rewrite (same_but_objectness_take _ _ Hr), (same_but_objectness_drop _ _ Hr).
      reflexivity. }
    rewrite Hrow. destruct (decode_row W H t acc r2); simpl; [apply IHo | reflexivity]. }
  rewrite Hlayer. destruct (fold_result (decode_row W H t) acc o2); simpl;
    [apply IH | reflexivity].
Qed.

Lemma is_nan_eq x : F64.is_nan x = true -> x = S754_nan.
Proof. destruct x; simpl; congruence. Qed.

(** Once the maximum is a NaN, or a NaN is still to come, the scan of
    [np.argmax] ends on a NaN. *)
Lemma argmax_from_nan l : forall best best_i seen,
  seen !! best_i = Some best ->
  F64.is_nan best = true \/ Exists (fun s => F64.is_nan s = true) l ->
  (seen ++ l) !! argmax_from best best_i (length seen) l = Some S754_nan.
Proof.
  induction l as [|v l IH]; intros best best_i seen Hbest Hnan; simpl.
  - destruct Hnan as [Hnan|Hnan]; [|inversion Hnan].
    rewrite app_nil_r, Hbest, (is_nan_eq _ Hnan). reflexivity.
  - destruct (F64.is_nan best) eqn:Hb.
    + rewrite (lookup_app_l_Some _ _ _ _ Hbest), (is_nan_eq _ Hb). reflexivity.
    + destruct Hnan as [Hnan|Hnan]; [discriminate|].
      replace (seen ++ v :: l) with ((seen ++ [v]) ++ l)
        by (rewrite <- app_assoc; reflexivity).
      replace (S (length seen)) with (length (seen ++ [v]))
        by (rewrite length_app; simpl; lia).
      destruct (F64.leb v best) eqn:Hle; simpl.
      * apply IH; [apply lookup_app_l_Some; exact Hbest|]. right.
        inversion Hnan as [? ? Hv|? ? Hrest]; subst; [|exact Hrest].
        rewrite (is_nan_eq _ Hv) in Hle. discriminate.
      * apply IH; [rewrite lookup_app_r, Nat.sub_diag by lia; reflexivity|].
        inversion Hnan; subst; auto.
Qed.

Lemma row_candidate_nan W H t row :
  nan_row row -> row_candidate W H t row = Ok None.
Proof.
  unfold nan_row, row_candidate. cbv zeta. intros Hnan.
  destruct (drop 5 row) as [|v l] eqn:Hscores; [inversion Hnan|]. simpl.
  assert (Hk : (v :: l) !! argmax_from v 0 1 l = Some S754_nan).
  { apply (argmax_from_nan l v O [v]); [reflexivity|].
    inversion Hnan; subst; auto. }
  unfold index. rewrite Hk. simpl.
  assert (Hlt : F64.ltb t S754_nan = false) by (destruct t; reflexivity).
  rewrite Hlt. reflexivity.
Qed.

Lemma argmax_from_spec l : forall best best_i seen,
  Forall (fun s => F64.is_nan s = false) (seen ++ l) ->
  seen !! best_i = Some best ->
  (forall s, s ∈ seen -> F64.leb s best = true) ->
  (forall j s, (j < best_i)%nat -> seen !! j = Some s -> F64.ltb s best = true) ->
  let k := argmax_from best best_i (length seen) l in
  exists m,
    (seen ++ l) !! k = Some m /\
    (forall s, s ∈ seen ++ l -> F64.leb s m = true) /\
    (forall j s, (j < k)%nat -> (seen ++ l) !! j = Some s -> F64.ltb s m = true).
Proof.
  induction l as [|v l IH]; intros best best_i seen Hnan Hbest Hmax Hfirst; simpl.
  - rewrite app_nil_r. eauto.
  - rewrite Forall_forall in Hnan.
    assert (Hnb : F64.is_nan best = false).
    { apply Hnan, elem_of_app. left. eapply list_elem_of_lookup_2; eauto. }
    assert (Hnv : F64.is_nan v = false).
    { apply Hnan, elem_of_app. right. apply elem_of_cons. auto. }
    rewrite Hnb.
    replace (seen ++ v :: l) with ((seen ++ [v]) ++ l) in * by (rewrite <- app_assoc; reflexivity).
    replace (S (length seen)) with (length (seen ++ [v])) by (rewrite length_app; simpl; lia).
    destruct (F64.leb v best) eqn:Hle; simpl.
    + apply IH.
      * apply Forall_forall. exact Hnan.
      * apply lookup_app_l_Some. exact Hbest.
      * intros s Hs. apply elem_of_app in Hs as [Hs|Hs]; [auto|].
        apply list_elem_of_singleton in Hs as ->. exact Hle.
      * intros j s Hj Hs. apply (Hfirst j s Hj).
        rewrite lookup_app_l in Hs; [exact Hs|].
        apply lookup_lt_Some in Hbest. lia.
    + assert (Hlt : F64.ltb best v = true) by (apply not_leb_ltb; auto).
      apply IH.
      * apply Forall_forall. exact Hnan.
      * rewrite lookup_app_r, Nat.sub_diag by lia. reflexivity.
      * intros s Hs. apply elem_of_app in Hs as [Hs|Hs].
        -- apply ltb_leb. eapply leb_ltb_trans; eauto.
        -- apply list_elem_of_singleton in Hs as ->. apply leb_refl. exact Hnv.
      * intros j s Hj Hs. rewrite lookup_app_l in Hs by exact Hj.
        eapply leb_ltb_trans; [|exact Hlt]. apply Hmax.
        eapply list_elem_of_lookup_2; eauto.
Qed.

(** On scores without NaN, [np.argmax] is the first maximum. *)
Lemma argmax_first_max scores :
  scores <> [] ->
  Forall (fun s => F64.is_nan s = false) scores ->
  exists k m,
    argmax scores = Ok k /\ index scores k = Ok m /\ first_max scores = Some (k, m).
Proof.
  intros Hne Hnan. destruct scores as [|v l]; [congruence|]. clear Hne.
  destruct (argmax_from_spec l v O [v]) as (m & Hk & Hmax & Hfirst); simpl; auto.
  - intros s Hs. apply list_elem_of_singleton in Hs as ->. apply leb_refl.
    inversion Hnan; assumption.
  - intros j s Hj. lia.
  - simpl in *. set (k := argmax_from v 0 1 l) in *.
    exists k, m. split; [reflexivity|]. split; [unfold index; rewrite Hk; reflexivity|].
    unfold first_max. apply list_find_Some. split; [exact Hk|]. split.
    + apply Forall_forall. exact Hmax.
    + intros j s Hs Hj Hall. rewrite Forall_forall in Hall.
      assert (Hm : F64.leb m s = true).
      { apply Hall. eapply list_elem_of_lookup_2; eauto. }
      rewrite (ltb_not_leb _ _ (Hfirst j s Hj Hs)) in Hm. discriminate.
Qed.

Lemma leb_nan_l n m : F64.is_nan n = true -> F64.leb n m = false.
Proof. intros Hn. rewrite (is_nan_eq _ Hn). reflexivity. Qed.

(** Scores with a NaN among them have no maximum. *)
Lemma first_max_nan scores :
  Exists (fun s => F64.is_nan s = true) scores -> first_max scores = None.
Proof.
  intros Hnan. unfold first_max. apply list_find_None. apply Forall_forall.
  intros m _ Hall. apply Exists_exists in Hnan as (n & Hin & Hn).
  rewrite Forall_forall in Hall. specialize (Hall n Hin).
  rewrite (leb_nan_l n m Hn) in Hall. discriminate.
Qed.

Lemma row_candidate_amended W H t row :
  well_formed_row row ->
  exists c, row_candidate W H t row = Ok c /\ option_list c = amended_row W H t row.
Proof.
  unfold well_formed_row. intros Hlen.
  destruct (decide (nan_row row)) as [Hnan|Hnan].
  - exists None. split; [apply row_candidate_nan, Hnan|].
    unfold amended_row, nan_row in *.
    destruct row as [|cx [|cy [|w [|h tl]]]]; try reflexivity.
    rewrite (first_max_nan _ Hnan). reflexivity.
  - assert (Hclean : Forall (fun s => F64.is_nan s = false) (drop 5 row)).
    { apply Forall_forall. intros s Hs. destruct (F64.is_nan s) eqn:Hn; [|reflexivity].
      exfalso. apply Hnan. apply Exists_exists. eauto. }
    destruct row as [|cx [|cy [|w [|h [|o [|s0 rest]]]]]]; simpl in Hlen; try lia.
    unfold row_candidate, amended_row.
    change (drop 5 (cx :: cy :: w :: h :: o :: s0 :: rest)) with (s0 :: rest) in *.
    destruct (argmax_first_max (s0 :: rest)) as (k & m & Ha & Hi & ->);
      [discriminate | exact Hclean |].
    cbv zeta. rewrite Ha. simpl. rewrite Hi. simpl.
    destruct (F64.ltb t m); [|exists None; auto].
    rewrite !corner_int64 by apply f64_to_int64_range. simpl.
    eexists. split; reflexivity.
Qed.

Lemma layer_candidates_amended W H t output : forall acc,
  Forall well_formed_row output ->
  layer_candidates W H t acc output = Ok (acc ++ (output ≫= amended_row W H t)).
Proof.
  unfold layer_candidates.
  induction output as [|row output IH]; intros acc Hwf; simpl.
  - rewrite app_nil_r. reflexivity.
  - inversion Hwf as [|? ? Hrow Hrest]; subst.
    destruct (row_candidate_amended W H t row Hrow) as (c & -> & Hc). simpl.
    rewrite IH by exact Hrest. rewrite Hc, <- app_assoc. reflexivity.
Qed.

Lemma all_candidates_amended outs W H t :
  Forall (Forall well_formed_row) outs ->
  all_candidates outs W H t = Ok (amended_decode outs W H t).
Proof.
  unfold all_candidates, amended_decode.
  assert (Hgen : forall acc, Forall (Forall well_formed_row) outs ->
            fold_result (layer_candidates W H t) acc outs
            = Ok (acc ++ (concat outs ≫= amended_row W H t))).
  { induction outs as [|output outs IH]; intros acc Hwf; simpl.
    - rewrite app_nil_r. reflexivity.
    - inversion Hwf as [|? ? Ho Hrest]; subst.
      rewrite layer_candidates_amended by exact Ho. simpl.
      rewrite IH by exact Hrest. rewrite bind_app, app_assoc. reflexivity. }
  intros Hwf. rewrite Hgen by exact Hwf. reflexivity.
Qed.

Lemma first_max_elem scores k m : first_max scores = Some (k, m) -> m ∈ scores.
Proof.
  unfold first_max. intros Hf. apply list_find_Some in Hf as (Hk & _).
  eapply list_elem_of_lookup_2; eauto.
Qed.

Lemma amended_row_below W H t row :
  (forall s, s ∈ drop 5 row -> F64.ltb t s = false) -> amended_row W H t row = [].
Proof.
  intros Hlow. unfold amended_row.
  destruct row as [|cx [|cy [|w [|h tl]]]]; try reflexivity.
  destruct (first_max _) as [[k m]|] eqn:Hf; [|reflexivity].
  rewrite (Hlow m); [reflexivity|]. eapply first_max_elem; eauto.
Qed.

(** C2, as amended. On rows with at least one class score, the decoder
    returns the candidates of the reference definition in which the
    centre and the size are truncated to integers before the corner is
    computed: per row, in order, the class is the first index of the
    maximal score, the confidence that score, the box
    [(x, y, width, height)] with [width], [height], [centerX], [centerY]
    the truncated products and [x = trunc (centerX - width / 2)], and the
    row is kept exactly when the threshold is strictly below the
    confidence; a row with a NaN among its scores has no maximal score
    and is not kept. When no score of any row exceeds the threshold the
    three lists are empty, and nothing is raised. *)
Theorem decode_amended_reference layer_outputs W H t :
  Forall (Forall well_formed_row) layer_outputs ->
  decode layer_outputs W H t = Ok (collect (amended_decode layer_outputs W H t)) /\
  ((forall row s, row ∈ concat layer_outputs -> s ∈ drop 5 row -> F64.ltb t s = false) ->
   decode layer_outputs W H t = Ok (mkDetections [] [] [])).
Proof.
  intros Hwf.
  assert (Hrun : decode layer_outputs W H t = Ok (collect (amended_decode layer_outputs W H t))).
  { rewrite decode_collect, all_candidates_amended by exact Hwf. reflexivity. }
  split; [exact Hrun|].
  intros Hlow. rewrite Hrun. f_equal.
  replace (amended_decode layer_outputs W H t) with (@nil candidate); [reflexivity|].
  unfold amended_decode. symmetry.
  induction (concat layer_outputs) as [|row rows IH]; [reflexivity|].
  simpl. rewrite amended_row_below.
  - apply IH. intros row' s Hrow'. apply Hlow. apply elem_of_cons. auto.
  - intros s. apply Hlow. apply elem_of_cons. auto.
Qed.

(** C2, the claim as stated fails: for a row with centre 1.75 and size
    1.5 in pixels, the reference corner is [trunc (1.75 - 0.75) = 1],
    while the decoder truncates the centre and the size first and
    returns [trunc (1 - 0.5) = 0]. *)
Lemma decode_differs_from_reference :
  let row := [ratio 7 8; ratio 7 8; ratio 3 4; ratio 3 4; F64.of_Z 0; F64.of_Z 1] in
  let t := ratio 1 2 in
  well_formed_row row /\
  decode [[row]] 2 2 t = Ok (mkDetections [(0, 0, 1, 1)] [F64.of_Z 1] [0%nat]) /\
  collect (reference_decode [[row]] 2 2 t)
  = mkDetections [(1, 1, 1, 1)] [F64.of_Z 1] [0%nat] /\
  decode [[row]] 2 2 t <> Ok (collect (reference_decode [[row]] 2 2 t)).
Proof.
  intros row t. split; [unfold well_formed_row; simpl; lia|].
  split; [vm_compute; reflexivity|]. split; [vm_compute; reflexivity|].
  vm_compute. discriminate.
Qed.

Lemma example_output_well_formed :
  Forall (Forall well_formed_row) (example_output ++ [example_nan_layer]).
Proof. repeat constructor; unfold well_formed_row; simpl; lia. Defined.

Lemma decode_amended_reference_witness :
  Forall (Forall well_formed_row) (example_output ++ [example_nan_layer]) /\
  decode (example_output ++ [example_nan_layer]) 100 100 (ratio 1 2)
  = Ok (mkDetections [(40, 40, 20, 20)] [ratio 9 10] [0%nat]) /\
  decode (example_output ++ [example_nan_layer]) 100 100 (ratio 9 10)
  = Ok (mkDetections [] [] []).
Proof.
  split; [exact example_output_well_formed|].
  destruct (decode_amended_reference (example_output ++ [example_nan_layer]) 100 100
              (ratio 1 2) example_output_well_formed) as [Hrun _].
  destruct (decode_amended_reference (example_output ++ [example_nan_layer]) 100 100
              (ratio 9 10) example_output_well_formed) as [_ Hnone].
  split.
  - rewrite Hrun. vm_compute. reflexivity.
  - apply Hnone. intros row s Hrow Hs.
    repeat (apply elem_of_cons in Hrow as [->|Hrow];
            [repeat (apply elem_of_cons in Hs as [->|Hs]; [vm_compute; reflexivity|]);
             inversion Hs|]).
    inversion Hrow.
Defined.

Lemma decode_monotone_in_threshold_witness :
  F64.ltb (ratio 1 4) (ratio 1 2) = true /\
  decode example_output 100 100 (ratio 1 4)
  = Ok (mkDetections [(40, 40, 20, 20); (40, 40, 20, 20); (7, 7, 5, 5)]
                     [ratio 9 10; ratio 2 5; ratio 3 10] [0%nat; 0%nat; 0%nat]) /\
  exists d2,
    decode example_output 100 100 (ratio 1 2) = Ok d2 /\
    sublist (det_rows d2)
            [(40, 40, 20, 20, ratio 9 10, 0%nat); (40, 40, 20, 20, ratio 2 5, 0%nat);
             (7, 7, 5, 5, ratio 3 10, 0%nat)].
Proof.
  assert (H1 : decode example_output 100 100 (ratio 1 4)
               = Ok (mkDetections [(40, 40, 20, 20); (40, 40, 20, 20); (7, 7, 5, 5)]
                       [ratio 9 10; ratio 2 5; ratio 3 10] [0%nat; 0%nat; 0%nat]))
    by (vm_compute; reflexivity).
  split; [vm_compute; reflexivity|]. split; [exact H1|].
  destruct (decode_monotone_in_threshold example_output 100 100 (ratio 1 4) (ratio 1 2) _
              eq_refl H1) as (d2 & H2 & Hsub & _).
  exists d2. split; [exact H2 | exact Hsub].
Defined.

Lemma example_outputs_same_but_objectness :
  Forall2 (Forall2 same_but_objectness) example_output example_output'.
Proof.
  repeat constructor; simpl;
    intros i Hi; do 7 (destruct i as [|i]; [first [reflexivity | congruence]|]);
    reflexivity.
Defined.

Lemma decode_ignores_objectness_witness :
  Forall2 (Forall2 same_but_objectness) example_output example_output' /\
  decode example_output 100 100 (ratio 1 4) = decode example_output' 100 100 (ratio 1 4).
Proof.
  split; [exact example_outputs_same_but_objectness|].
  apply decode_ignores_objectness. exact example_outputs_same_but_objectness.
Defined.

(* ================================================================= *)
(** ** Properties of the suppression *)

Lemma listed_filter (P : cand -> Prop) `{!forall c, Decision (P c)} l :
  listed l -> listed (filter P l).
Proof.
  intros [Hs Hn]. split.
  - induction Hs as [|c l Hs IH Hc]; [constructor|].
    rewrite filter_cons. inversion Hn; subst. destruct (decide (P c)); [|auto].
    constructor; [auto|]. apply Forall_forall. intros c' Hc'.
    apply list_elem_of_filter in Hc' as [_ Hc'].
    rewrite Forall_forall in Hc. auto.
  - apply Forall_forall. intros c Hc. apply list_elem_of_filter in Hc as [_ Hc].
    rewrite Forall_forall in Hn. auto.
Qed.

Lemma listed_idx_inj l c1 c2 :
  listed l -> c1 ∈ l -> c2 ∈ l -> cand_idx c1 = cand_idx c2 -> c1 = c2.
Proof.
  intros [Hs _]. induction Hs as [|c l Hs IH Hc]; intros H1 H2 Heq.
  - inversion H1.
  - rewrite Forall_forall in Hc.
    apply elem_of_cons in H1 as [->|H1]; apply elem_of_cons in H2 as [->|H2]; auto.
    + specialize (Hc _ H2). lia.
    + specialize (Hc _ H1). lia.
Qed.

Lemma listed_candidates boxes confidences st :
  listed (candidates boxes confidences st).
Proof.
  unfold candidates. split.
  - assert (Hs : forall (l : list (Z * Z * Z * Z * spec_float)) n,
              StronglySorted (fun a b => (cand_idx a < cand_idx b)%nat)
                (imap (fun i bc => mkCand (n + i) (fst bc) (snd bc)) l)).
    { induction l as [|bc l IH]; intros n; [constructor|].
      rewrite imap_cons. constructor.
      - rewrite (imap_ext _ (fun i bc => mkCand (S n + i) (fst bc) (snd bc)))
          by (intros; simpl; f_equal; lia).
        apply IH.
      - apply Forall_forall. intros c Hc.
        apply elem_of_lookup_imap in Hc as (i & bc' & -> & _). simpl. lia. }
    specialize (Hs (zip boxes confidences) O). simpl in Hs.
    set (l := imap _ _) in *. clearbody l.
    induction Hs as [|c l Hs IH Hc]; [constructor|].
    rewrite filter_cons. destruct (decide _); [|auto].
    constructor; [auto|]. apply Forall_forall. intros c' Hc'.
    apply list_elem_of_filter in Hc' as [_ Hc'].
    rewrite Forall_forall in Hc. auto.
  - apply Forall_forall. intros c Hc. apply list_elem_of_filter in Hc as [Hc _].
    apply Is_true_true in Hc. eapply ltb_not_nan_r; eauto.
Qed.

(** The scan for the best candidate. [seen] are the candidates already
    compared, [best] the best of them. *)
Lemma best_from_spec l : forall best seen,
  listed (seen ++ l) ->
  best ∈ seen ->
  (forall c', c' ∈ seen -> F64.ltb (cand_conf best) (cand_conf c') = false) ->
  (forall c', c' ∈ seen -> (cand_idx c' < cand_idx best)%nat ->
              F64.ltb (cand_conf c') (cand_conf best) = true) ->
  let b := best_from best l in
  b ∈ seen ++ l /\
  (forall c', c' ∈ seen ++ l -> F64.ltb (cand_conf b) (cand_conf c') = false) /\
  (forall c', c' ∈ seen ++ l -> (cand_idx c' < cand_idx b)%nat ->
              F64.ltb (cand_conf c') (cand_conf b) = true).
Proof.
  induction l as [|c l IH]; intros best seen Hl Hin Hmax Hfirst; simpl.
  - rewrite app_nil_r. auto.
  - assert (Hnan : forall c', c' ∈ seen ++ c :: l -> F64.is_nan (cand_conf c') = false).
    { destruct Hl as [_ Hn]. rewrite Forall_forall in Hn. exact Hn. }
    assert (Hbefore : forall c', c' ∈ seen -> (cand_idx c' < cand_idx c)%nat).
    { destruct Hl as [Hs _]. intros c' Hc'.
      apply (StronglySorted_app_1_elem_of _ _ _ _ _ Hs Hc'). apply elem_of_cons. auto. }
    assert (Hnb : F64.is_nan (cand_conf best) = false)
      by (apply Hnan, elem_of_app; auto).
    assert (Hnc : F64.is_nan (cand_conf c) = false)
      by (apply Hnan, elem_of_app; right; apply elem_of_cons; auto).
    replace (seen ++ c :: l) with ((seen ++ [c]) ++ l) in * by (rewrite <- app_assoc; reflexivity).
    destruct (F64.ltb (cand_conf best) (cand_conf c)) eqn:Hlt.
    + apply IH; [exact Hl | apply elem_of_app; right; apply elem_of_cons; auto | |].
      * intros c' Hc'. apply elem_of_app in Hc' as [Hc'|Hc'].
        -- apply leb_not_ltb, ltb_leb. eapply leb_ltb_trans; [|exact Hlt].
           apply not_ltb_leb; auto. apply Hnan, elem_of_app. left. apply elem_of_app. auto.
        -- apply list_elem_of_singleton in Hc' as ->. apply ltb_irrefl.
      * intros c' Hc' Hidx. apply elem_of_app in Hc' as [Hc'|Hc'].
        -- eapply leb_ltb_trans; [|exact Hlt].
           apply not_ltb_leb; auto. apply Hnan, elem_of_app. left. apply elem_of_app. auto.
        -- apply list_elem_of_singleton in Hc' as ->. lia.
    + apply IH; [exact Hl | apply elem_of_app; auto | |].
      * intros c' Hc'. apply elem_of_app in Hc' as [Hc'|Hc']; [auto|].
        apply list_elem_of_singleton in Hc' as ->. exact Hlt.
      * intros c' Hc' Hidx. apply elem_of_app in Hc' as [Hc'|Hc']; [auto|].
        apply list_elem_of_singleton in Hc' as ->. specialize (Hbefore _ Hin). lia.
Qed.

Lemma select_best_spec remaining c :
  listed remaining ->
  select_best remaining = Some c ->
  c ∈ remaining /\
  (forall c', c' ∈ remaining -> F64.ltb (cand_conf c) (cand_conf c') = false) /\
  (forall c', c' ∈ remaining -> (cand_idx c' < cand_idx c)%nat ->
              F64.ltb (cand_conf c') (cand_conf c) = true).
Proof.
  intros Hl. destruct remaining as [|c0 l]; simpl; [discriminate|].
  intros [= <-]. apply (best_from_spec l c0 [c0]); simpl; auto.
  - apply list_elem_of_singleton. reflexivity.
  - intros c' Hc'. apply list_elem_of_singleton in Hc' as ->. apply ltb_irrefl.
  - intros c' Hc'. apply list_elem_of_singleton in Hc' as ->. lia.
Qed.

(** Two candidates that both qualify as the next selection are the same. *)
Lemma selection_unique remaining c1 c2 :
  listed remaining ->
  c1 ∈ remaining -> c2 ∈ remaining ->
  (forall c', c' ∈ remaining -> F64.ltb (cand_conf c1) (cand_conf c') = false) ->
  (forall c', c' ∈ remaining -> (cand_idx c' < cand_idx c1)%nat ->
              F64.ltb (cand_conf c') (cand_conf c1) = true) ->
  (forall c', c' ∈ remaining -> F64.ltb (cand_conf c2) (cand_conf c') = false) ->
  (forall c', c' ∈ remaining -> (cand_idx c' < cand_idx c2)%nat ->
              F64.ltb (cand_conf c') (cand_conf c2) = true) ->
  c1 = c2.
Proof.
  intros Hl H1 H2 Hmax1 Hfirst1 Hmax2 Hfirst2.
  apply (listed_idx_inj remaining); auto.
  destruct (Nat.lt_trichotomy (cand_idx c1) (cand_idx c2)) as [Hlt|[Heq|Hlt]]; [|exact Heq|].
  - specialize (Hfirst2 _ H1 Hlt). rewrite (Hmax1 _ H2) in Hfirst2. discriminate.
  - specialize (Hfirst1 _ H2 Hlt). rewrite (Hmax2 _ H1) in Hfirst1. discriminate.
Qed.

Lemma survives_filter thr c remaining :
  listed remaining -> c ∈ remaining ->
  filter (fun c' => survives thr c c') remaining
  = filter (fun c' => cand_idx c' <> cand_idx c
                      /\ F64.ltb thr (iou (cand_box c) (cand_box c')) = false)
           remaining.
Proof.
  intros Hl Hc. apply list_filter_iff. intros c'. unfold survives.
  rewrite andb_True, !negb_True, !Is_true_false.
  rewrite Nat.eqb_neq. reflexivity.
Qed.

Lemma greedy_sound thr fuel : forall remaining,
  listed remaining -> (length remaining <= fuel)%nat ->
  greedy_nms thr remaining (greedy thr fuel remaining).
Proof.
  induction fuel as [|fuel IH]; intros remaining Hl Hlen; simpl.
  - destruct remaining; [constructor | simpl in Hlen; lia].
  - destruct (select_best remaining) as [c|] eqn:Hsel.
    + destruct (select_best_spec _ _ Hl Hsel) as (Hin & Hmax & Hfirst).
      constructor; auto.
      rewrite <- (survives_filter thr c remaining Hl Hin).
      apply IH; [apply listed_filter; exact Hl|].
      assert (length (filter (fun c' => survives thr c c') remaining) < length remaining)%nat.
      { apply (length_filter_lt _ _ c); [exact Hin|].
        unfold survives. rewrite Nat.eqb_refl. simpl. auto. }
      lia.
    + destruct remaining; [constructor | discriminate].
Qed.

Lemma greedy_complete thr remaining kept :
  greedy_nms thr remaining kept ->
  forall fuel, listed remaining -> (length remaining <= fuel)%nat ->
  kept = greedy thr fuel remaining.
Proof.
  induction 1 as [|remaining c kept Hin Hmax Hfirst Hrec IH]; intros fuel Hl Hlen.
  - destruct fuel; reflexivity.
  - destruct fuel as [|fuel]; [destruct remaining; [inversion Hin | simpl in Hlen; lia]|].
    simpl. destruct (select_best remaining) as [c0|] eqn:Hsel.
    + destruct (select_best_spec _ _ Hl Hsel) as (Hin0 & Hmax0 & Hfirst0).
      assert (c0 = c) by (eapply selection_unique; eauto). subst c0.
      f_equal. rewrite (survives_filter thr c remaining Hl Hin).
      apply IH; [apply listed_filter; exact Hl|].
      assert (length (filter (fun c' => cand_idx c' <> cand_idx c /\
                F64.ltb thr (iou (cand_box c) (cand_box c')) = false) remaining)
              < length remaining)%nat.
      { apply (length_filter_lt _ _ c); [exact Hin|]. intros [Hne _]. auto. }
      lia.
    + destruct remaining; [inversion Hin | discriminate].
Qed.

Lemma all_candidates_above outs W H t cs :
  all_candidates outs W H t = Ok cs ->
  Forall (fun c => F64.ltb t (snd (fst c)) = true) cs.
Proof.
  unfold all_candidates.
  assert (Hrow : forall row c, row_candidate W H t row = Ok (Some c) ->
            F64.ltb t (snd (fst c)) = true).
  { intros row c. unfold row_candidate.
    destruct (argmax (drop 5 row)) as [k|e]; simpl; [|discriminate].
    destruct (index (drop 5 row) k) as [conf|e]; simpl; [|discriminate].
    destruct (F64.ltb t conf) eqn:Hlt; [|discriminate].
    destruct (mul_dims (take 4 row) W H) as [box|e]; simpl; [|discriminate].
    destruct (map f64_to_int64 box) as [|cX [|cY [|w [|h [|]]]]]; try discriminate.
    destruct (corner cX w) as [x|e]; simpl; [|discriminate].
    destruct (corner cY h) as [y|e]; simpl; [|discriminate].
    intros [= <-]. exact Hlt. }
  assert (Hlayer : forall output acc r,
            Forall (fun c => F64.ltb t (snd (fst c)) = true) acc ->
            layer_candidates W H t acc output = Ok r ->
            Forall (fun c => F64.ltb t (snd (fst c)) = true) r).
  { unfold layer_candidates.
    induction output as [|row output IH]; intros acc r Hacc; simpl.
    - intros [= <-]. exact Hacc.
    - destruct (row_candidate W H t row) as [c|e] eqn:Hc; simpl; [|discriminate].
      apply IH. apply Forall_app. split; [exact Hacc|].
      destruct c as [c|]; simpl; [|constructor].
      constructor; [eapply Hrow; eauto | constructor]. }
  assert (Hgen : forall acc r,
            Forall (fun c => F64.ltb t (snd (fst c)) = true) acc ->
            fold_result (layer_candidates W H t) acc outs = Ok r ->
            Forall (fun c => F64.ltb t (snd (fst c)) = true) r).
  { induction outs as [|output outs IH]; intros acc r Hacc; simpl.
    - intros [= <-]. exact Hacc.
    - destruct (layer_candidates W H t acc output) as [m|e] eqn:Hm; simpl; [|discriminate].
      apply IH. eapply Hlayer; eauto. }
  apply Hgen. constructor.
Qed.

Lemma filter_all {A} (P : A -> Prop) `{!forall x, Decision (P x)} (l : list A) :
  (forall x, x ∈ l -> P x) -> filter P l = l.
Proof.
  induction l as [|x l IH]; intros Hall; [reflexivity|].
  rewrite filter_cons_True by (apply Hall, elem_of_cons; auto).
  f_equal. apply IH. intros y Hy. apply Hall, elem_of_cons. auto.
Qed.

Lemma zip_collect cs :
  zip (boxes (collect cs)) (confidences (collect cs)) = map fst cs.
Proof.
  unfold collect. simpl.
  induction cs as [|[[b c] k] cs IH]; simpl; [reflexivity|]. rewrite IH. reflexivity.
Qed.

(** C3. [NMSBoxes] returns the selections of greedy suppression over the
    candidates above the score threshold: each selection is a remaining
    candidate that no remaining one beats in confidence and that every
    remaining one listed before it is strictly below; it is kept, and it
    and every remaining box whose overlap with it exceeds the threshold
    leave; this is repeated until nothing remains. The selections are
    determined, so the result is the only such list. On empty input the
    result is empty. In [yolo_v3] every decoded candidate takes part, and
    an empty result gives an empty table, not an exception. *)
Theorem NMSBoxes_is_greedy :
  (forall bs confs st thr,
     greedy_nms thr (candidates bs confs st) (NMSBoxes bs confs st thr) /\
     forall kept, greedy_nms thr (candidates bs confs st) kept ->
                  kept = NMSBoxes bs confs st thr) /\
  (forall st thr, NMSBoxes [] [] st thr = []) /\
  (forall layer_outputs W H ct ot d,
     decode layer_outputs W H ct = Ok d ->
     candidates (boxes d) (confidences d) ct
     = imap (fun i bc => mkCand i (fst bc) (snd bc)) (zip (boxes d) (confidences d)) /\
     (NMSBoxes (boxes d) (confidences d) ct ot = [] ->
      yolo_v3 layer_outputs W H ct ot = Ok (mkBoxFrame [] [] [] [] []))).
Proof.
  split; [|split].
  - intros bs confs st thr. unfold NMSBoxes.
    pose proof (listed_candidates bs confs st) as Hl. split.
    + apply greedy_sound; [exact Hl | lia].
    + intros kept Hk. eapply greedy_complete; eauto.
  - reflexivity.
  - intros outs W H ct ot d Hd. split.
    + rewrite decode_collect in Hd.
      destruct (all_candidates outs W H ct) as [cs|e] eqn:Hcs; simpl in Hd; [|discriminate].
      injection Hd as <-. unfold candidates.
      pose proof (all_candidates_above _ _ _ _ _ Hcs) as Habove.
      rewrite zip_collect. clear Hcs.
      apply filter_all. intros c Hc.
      apply elem_of_lookup_imap in Hc as (i & bc & -> & Hbc). simpl.
      apply list_elem_of_lookup_2, list_elem_of_fmap in Hbc as (c' & -> & Hc').
      rewrite Forall_forall in Habove. apply Is_true_true, Habove, Hc'.
    + intros Hnil. unfold yolo_v3. rewrite Hd. simpl. rewrite Hnil. reflexivity.
Qed.

(* ================================================================= *)
(** ** Properties of the labels and of the frames *)

Lemma rows_snoc xs : forall ys xs' ys' ls x y x' y' l,
  length ys = length xs -> length xs' = length xs ->
  length ys' = length xs -> length ls = length xs ->
  rows (xs ++ [x]) (ys ++ [y]) (xs' ++ [x']) (ys' ++ [y']) (ls ++ [l])
  = rows xs ys xs' ys' ls ++ [mkBox x y x' y' l].
Proof.
  induction xs as [|x0 xs IH]; intros [|y0 ys] [|x1 xs'] [|y1 ys'] [|l0 ls];
    simpl; intros; try discriminate; try reflexivity.
  f_equal. apply IH; lia.
Qed.

Lemma new_labels_palette k s :
  new_labels !! k = Some (Some s) -> is_Some (LABEL_COLORS !! s).
Proof.
  do 10 (destruct k as [|k]; [intros [= <-]; vm_compute; eauto | try discriminate]).
  do 70 (destruct k as [|k]; [discriminate|]). discriminate.
Qed.

Lemma keep_box_rows d df i df' :
  aligned df ->
  keep_box d df i = Ok df' ->
  aligned df' /\ iterrows df' = iterrows df ++ option_list (kept_row d i).
Proof.
  intros Hal. unfold keep_box, kept_row, index.
  destruct (class_IDs d !! i) as [k|]; simpl; [|discriminate].
  destruct (new_labels !! k) as [[s|]|]; simpl; [| |discriminate].
  - destruct (boxes d !! i) as [[[[x y] w] h]|]; simpl; [|discriminate].
    intros [= <-]. destruct Hal as (H1 & H2 & H3 & H4). split.
    + unfold aligned. simpl. rewrite !length_app. simpl. lia.
    + unfold iterrows. simpl. apply rows_snoc; assumption.
  - intros [= <-]. rewrite app_nil_r. auto.
Qed.

Lemma keep_box_fold d idxs : forall df df',
  aligned df ->
  fold_result (keep_box d) df idxs = Ok df' ->
  iterrows df' = iterrows df ++ omap (kept_row d) idxs.
Proof.
  induction idxs as [|i idxs IH]; intros df df' Hal; simpl.
  - intros [= <-]. rewrite app_nil_r. reflexivity.
  - destruct (keep_box d df i) as [df1|e] eqn:H1; simpl; [|discriminate].
    destruct (keep_box_rows _ _ _ _ Hal H1) as [Hal1 Hrows1].
    intros Hfold. rewrite (IH _ _ Hal1 Hfold), Hrows1, <- app_assoc. f_equal.
    destruct (kept_row d i); reflexivity.
Qed.

Lemma kept_row_palette d i b : kept_row d i = Some b -> in_palette b.
Proof.
  unfold kept_row.
  destruct (class_IDs d !! i) as [k|]; simpl; [|discriminate].
  destruct (new_labels !! k) as [[s|]|] eqn:Hk; simpl; try discriminate.
  destruct (boxes d !! i) as [[[[x y] w] h]|]; simpl; [|discriminate].
  intros [= <-]. unfold in_palette. simpl. eapply new_labels_palette; eauto.
Qed.

(** C5. The table has the 80 entries of the network's classes; each is a
    label of the palette or [None], the mark of a class that is dropped.
    The table returned by [yolo_v3] has one row for each index kept by
    the suppression whose class has a label, in the order of the indices,
    and none for an index whose class is dropped; every label in it is in
    the palette. *)
Theorem labels_in_palette_or_dropped :
  length new_labels = 80%nat /\
  (forall class_id, (class_id < 80)%nat ->
     exists l, index new_labels class_id = Ok l /\
               (l = None \/ exists s, l = Some s /\ is_Some (LABEL_COLORS !! s))) /\
  (forall layer_outputs W H ct ot df,
     yolo_v3 layer_outputs W H ct ot = Ok df ->
     exists d,
       decode layer_outputs W H ct = Ok d /\
       iterrows df = omap (kept_row d) (NMSBoxes (boxes d) (confidences d) ct ot) /\
       Forall in_palette (iterrows df) /\
       forall i k, class_IDs d !! i = Some k -> new_labels !! k = Some None ->
                   kept_row d i = None).
Proof.
  split; [reflexivity|]. split.
  - intros k Hk. unfold index.
    destruct (new_labels !! k) as [l|] eqn:Hl.
    + exists l. split; [reflexivity|]. destruct l as [s|]; [right | left; reflexivity].
      exists s. split; [reflexivity|]. eapply new_labels_palette; eauto.
    + apply lookup_ge_None in Hl. simpl in Hl. lia.
  - intros outs W H ct ot df. unfold yolo_v3.
    destruct (decode outs W H ct) as [d|e]; simpl; [|discriminate].
    set (idxs := NMSBoxes _ _ _ _). intros Hdf. exists d. split; [reflexivity|].
    assert (Hrows : iterrows df = omap (kept_row d) idxs).
    { destruct (0 <? length idxs)%nat eqn:Hlen.
      - apply (keep_box_fold d idxs (mkBoxFrame [] [] [] [] [])); [|exact Hdf].
        repeat split.
      - apply Nat.ltb_ge in Hlen. destruct idxs; [|simpl in Hlen; lia].
        injection Hdf as <-. reflexivity. }
    split; [exact Hrows|]. split.
    + rewrite Hrows. apply Forall_forall. intros b Hb.
      apply list_elem_of_omap in Hb as (i & _ & Hi). eapply kept_row_palette; eauto.
    + intros i k Hi Hk. unfold kept_row. rewrite Hi. simpl. rewrite Hk. reflexivity.
Qed.

Lemma select_mask_range names min_elts max_elts : forall column,
  select_mask names
    (zip_with andb (map (fun c => min_elts <=? c) column)
                   (map (fun c => c <=? max_elts) column))
  = frames_in_range names column min_elts max_elts.
Proof.
  unfold frames_in_range.
  induction names as [|f names IH]; intros [|c column]; simpl; try reflexivity.
  rewrite filter_cons. simpl. rewrite IH.
  destruct (Z.leb_spec min_elts c), (Z.leb_spec c max_elts); simpl;
    destruct (decide (min_elts <= c <= max_elts)); try lia; reflexivity.
Qed.

Lemma elem_of_frames_in_range names column min_elts max_elts f :
  f ∈ frames_in_range names column min_elts max_elts <->
  exists i c, names !! i = Some f /\ column !! i = Some c /\ min_elts <= c <= max_elts.
Proof.
  unfold frames_in_range. rewrite list_elem_of_fmap. split.
  - intros ([f' c] & -> & Hin). apply list_elem_of_filter in Hin as [Hr Hin].
    apply list_elem_of_lookup in Hin as [i Hi].
    apply lookup_zip_with_Some in Hi as (? & ? & [= <- <-] & ? & ?). eauto.
  - intros (i & c & Hf & Hc & Hr). exists (f, c). split; [reflexivity|].
    apply list_elem_of_filter. split; [exact Hr|].
    apply list_elem_of_lookup. exists i. apply lookup_zip_with_Some. eauto.
Qed.

(** C6. For a label that is a column of the summary, [get_selected_frames]
    returns, in the order of the summary, the frames whose count [c] for
    the label satisfies [min_elts <= c <= max_elts], both ends included. A
    frame with count 10 is selected for the range [[0, 25]], and is not
    for [[11, 25]] (frames being listed once in the summary). *)
Theorem get_selected_frames_inclusive summary label column :
  summary_columns summary !! label = Some column ->
  length column = length (summary_index summary) ->
  (forall min_elts max_elts,
     get_selected_frames summary label min_elts max_elts
     = Ok (frames_in_range (summary_index summary) column min_elts max_elts) /\
     forall f, f ∈ frames_in_range (summary_index summary) column min_elts max_elts <->
               exists i c, summary_index summary !! i = Some f /\ column !! i = Some c /\
                           min_elts <= c <= max_elts) /\
  (forall i F, summary_index summary !! i = Some F -> column !! i = Some 10 ->
     (exists frames, get_selected_frames summary label 0 25 = Ok frames /\ F ∈ frames) /\
     (exists frames, get_selected_frames summary label 11 25 = Ok frames /\
                     (NoDup (summary_index summary) -> F ∉ frames))).
Proof.
  intros Hcol Hlen.
  assert (Hrun : forall a b, get_selected_frames summary label a b
            = Ok (frames_in_range (summary_index summary) column a b)).
  { intros a b. unfold get_selected_frames. rewrite Hcol, select_mask_range. reflexivity. }
  split.
  - intros a b. split; [apply Hrun | apply elem_of_frames_in_range].
  - intros i F Hi Hc. split; eexists; (split; [apply Hrun|]).
    + apply elem_of_frames_in_range. exists i, 10. repeat split; auto; lia.
    + intros Hnodup Hin. apply elem_of_frames_in_range in Hin as (j & c & Hj & Hcj & Hr).
      assert (j = i) by (eapply NoDup_lookup; eauto). subst j.
      rewrite Hc in Hcj. injection Hcj as <-. lia.
Qed.

Lemma get_selected_frames_inclusive_witness :
  summary_columns example_summary !! "car" = Some [10; 3; 25] /\
  length [10; 3; 25] = length (summary_index example_summary) /\
  get_selected_frames example_summary "car" 0 25
  = Ok ["frame_a.jpg"; "frame_b.jpg"; "frame_c.jpg"] /\
  get_selected_frames example_summary "car" 11 25 = Ok ["frame_c.jpg"] /\
  get_selected_frames example_summary "car" 10 10 = Ok ["frame_a.jpg"].
Proof.
  split; [reflexivity|]. split; [reflexivity|].
  destruct (get_selected_frames_inclusive example_summary "car" [10; 3; 25]
              eq_refl eq_refl) as [Hrange _].
  destruct (Hrange 0 25) as [-> _]. destruct (Hrange 11 25) as [-> _].
  destruct (Hrange 10 10) as [-> _].
  repeat split; vm_compute; reflexivity.
Defined.

(* ================================================================= *)
(** ** The decoder row by row *)

Lemma rows_candidates_app W H t rows1 rows2 :
  rows_candidates W H t (rows1 ++ rows2)
  = (cs1 ← rows_candidates W H t rows1;
     cs2 ← rows_candidates W H t rows2;
     Ok (cs1 ++ cs2)).
Proof.
  induction rows1 as [|row rows1 IH]; simpl.
  - destruct (rows_candidates W H t rows2); reflexivity.
  - destruct (row_candidate W H t row) as [c|e]; simpl; [|reflexivity].
    rewrite IH. destruct (rows_candidates W H t rows1) as [cs1|e]; simpl; [|reflexivity].
    destruct (rows_candidates W H t rows2); reflexivity.
Qed.

Lemma layer_candidates_rows W H t output : forall acc,
  layer_candidates W H t acc output
  = (fun rs => acc ++ omap id rs) <$> rows_candidates W H t output.
Proof.
  unfold layer_candidates.
  induction output as [|row output IH]; intros acc; simpl.
  - rewrite app_nil_r. reflexivity.
  - destruct (row_candidate W H t row) as [c|e]; simpl; [|reflexivity].
    rewrite IH. destruct (rows_candidates W H t output) as [cs|e]; simpl; [|reflexivity].
    rewrite <- app_assoc. destruct c; reflexivity.
Qed.

Lemma all_candidates_rows outs W H t :
  all_candidates outs W H t
  = (fun rs : list (option candidate) => omap id rs)
    <$> rows_candidates W H t (concat outs).
Proof.
  unfold all_candidates.
  assert (Hgen : forall acc,
            fold_result (layer_candidates W H t) acc outs
            = (fun rs => acc ++ omap id rs) <$> rows_candidates W H t (concat outs)).
  { induction outs as [|output outs IH]; intros acc; simpl.
    - rewrite app_nil_r. reflexivity.
    - rewrite layer_candidates_rows, rows_candidates_app.
      destruct (rows_candidates W H t output) as [cs|e]; simpl; [|reflexivity].
      rewrite IH.
      destruct (rows_candidates W H t (concat outs)) as [cs'|e]; simpl; [|reflexivity].
      rewrite omap_app, app_assoc. reflexivity. }
  rewrite Hgen. destruct (rows_candidates W H t (concat outs)); reflexivity.
Qed.

Lemma decode_rows outs W H t :
  decode outs W H t
  = (fun rs => collect (omap id rs)) <$> rows_candidates W H t (concat outs).
Proof.
  rewrite decode_collect, all_candidates_rows.
  destruct (rows_candidates W H t (concat outs)); reflexivity.
Qed.

Lemma collect_app cs1 cs2 :
  collect (cs1 ++ cs2)
  = mkDetections (boxes (collect cs1) ++ boxes (collect cs2))
                 (confidences (collect cs1) ++ confidences (collect cs2))
                 (class_IDs (collect cs1) ++ class_IDs (collect cs2)).
Proof. unfold collect. simpl. rewrite !map_app. reflexivity. Qed.

(** X1. The grouping of the rows into layers has no effect on the
    decoder: the result is that of the single layer of all rows; and the
    result for one output followed by another is the result of the first
    with the lists of the second appended. *)
Theorem decode_layers_concat outs outs' W H t :
  decode outs W H t = decode [concat outs] W H t /\
  (forall d d',
     decode outs W H t = Ok d -> decode outs' W H t = Ok d' ->
     decode (outs ++ outs') W H t
     = Ok (mkDetections (boxes d ++ boxes d') (confidences d ++ confidences d')
                        (class_IDs d ++ class_IDs d'))).
Proof.
  split.
  - rewrite !decode_rows. simpl. rewrite app_nil_r. reflexivity.
  - intros d d'. rewrite !decode_rows, concat_app, rows_candidates_app.
    destruct (rows_candidates W H t (concat outs)) as [cs|e]; simpl; [|discriminate].
    destruct (rows_candidates W H t (concat outs')) as [cs'|e]; simpl; [|discriminate].
    intros [= <-] [= <-]. rewrite omap_app, collect_app. reflexivity.
Qed.

Lemma argmax_from_lt l : forall best best_i i,
  (best_i < i)%nat -> (argmax_from best best_i i l < i + length l)%nat.
Proof.
  induction l as [|v l IH]; intros best best_i i Hi; simpl; [lia|].
  destruct (F64.is_nan best); [lia|].
  destruct (negb (F64.leb v best)).
  - specialize (IH v i (S i) ltac:(lia)). lia.
  - specialize (IH best best_i (S i) ltac:(lia)). lia.
Qed.

Lemma argmax_lt scores k : argmax scores = Ok k -> (k < length scores)%nat.
Proof.
  destruct scores as [|v l]; simpl; [discriminate|]. intros [= <-].
  pose proof (argmax_from_lt l v O 1%nat ltac:(lia)). lia.
Qed.

(** What a row gives: nothing but [ValueError] can be raised, and that
    only by a row without class scores; a candidate is above the threshold
    and its class is the position of one of the row's scores. *)
Lemma row_candidate_cases W H t row :
  ((length row < 6)%nat /\ row_candidate W H t row = Raise ValueError) \/
  ((6 <= length row)%nat /\
   (row_candidate W H t row = Ok None \/
    exists b conf k,
      row_candidate W H t row = Ok (Some (b, conf, k)) /\
      F64.ltb t conf = true /\ drop 5 row !! k = Some conf)).
Proof.
  destruct row as [|cx [|cy [|w [|h [|o [|s0 rest]]]]]];
    try (left; split; [simpl; lia | reflexivity]).
  right. split; [simpl; lia|]. unfold row_candidate.
  change (drop 5 (cx :: cy :: w :: h :: o :: s0 :: rest)) with (s0 :: rest).
  cbv zeta. destruct (argmax (s0 :: rest)) as [k|e] eqn:Hk; [|discriminate].
  pose proof (argmax_lt _ _ Hk) as Hlt. simpl.
  unfold index. destruct ((s0 :: rest) !! k) as [conf|] eqn:Hconf;
    [|apply lookup_ge_None in Hconf; lia].
  simpl. destruct (F64.ltb t conf) eqn:Hc; [|left; reflexivity].
  right. rewrite !corner_int64 by apply f64_to_int64_range. simpl.
  eexists _, conf, k. split; [reflexivity|]. split; [exact Hc | exact Hconf].
Qed.

Lemma rows_candidates_ok W H t rows :
  Forall (fun row => (6 <= length row)%nat) rows ->
  exists cs, rows_candidates W H t rows = Ok cs.
Proof.
  induction 1 as [|row rows Hrow _ [cs IH]]; simpl; [eauto|].
  destruct (row_candidate_cases W H t row) as [[Hlt _]|[_ [Hc|(b & conf & k & Hc & _)]]];
    [lia | |]; rewrite Hc, IH; simpl; eauto.
Qed.

Lemma rows_candidates_raise W H t rows :
  Exists (fun row => (length row < 6)%nat) rows ->
  rows_candidates W H t rows = Raise ValueError.
Proof.
  induction rows as [|row rows IH]; intros Hex; [inversion Hex|]. simpl.
  destruct (row_candidate_cases W H t row) as [[_ Hc]|[Hlen Hc]].
  - rewrite Hc. reflexivity.
  - inversion Hex as [? ? Hshort|? ? Hrest]; subst; [lia|].
    rewrite (IH Hrest).
    destruct Hc as [Hc|(b & conf & k & Hc & _)]; rewrite Hc; reflexivity.
Qed.

(** X2. The decoder raises exactly when some row has no class score
    (fewer than six entries), for every threshold, and then the exception
    is [ValueError]; on any other output, NaN and infinite entries
    included, it returns its three lists. *)
Theorem decode_raises_iff_short_row layer_outputs W H t :
  (Forall (fun row => (6 <= length row)%nat) (concat layer_outputs) ->
   exists d, decode layer_outputs W H t = Ok d) /\
  (Exists (fun row => (length row < 6)%nat) (concat layer_outputs) ->
   decode layer_outputs W H t = Raise ValueError) /\
  (forall d, decode layer_outputs W H t = Ok d ->
             Forall (fun row => (6 <= length row)%nat) (concat layer_outputs)).
Proof.
  rewrite decode_rows. split; [|split].
  - intros Hall. destruct (rows_candidates_ok W H t _ Hall) as [cs ->]. simpl. eauto.
  - intros Hex. rewrite (rows_candidates_raise W H t _ Hex). reflexivity.
  - intros d Hd. apply Forall_forall. intros row Hrow.
    destruct (le_lt_dec 6 (length row)) as [|Hshort]; [assumption|].
    rewrite rows_candidates_raise in Hd; [discriminate|].
    apply Exists_exists. eauto.
Qed.

Lemma rows_candidates_facts W H t rows : forall cs,
  rows_candidates W H t rows = Ok cs ->
  length cs = length rows /\
  forall b conf k, Some (b, conf, k) ∈ cs ->
    F64.ltb t conf = true /\
    exists row, row ∈ rows /\ drop 5 row !! k = Some conf.
Proof.
  induction rows as [|row rows IH]; simpl; intros cs.
  - intros [= <-]. split; [reflexivity|]. intros b conf k Hin. inversion Hin.
  - destruct (row_candidate W H t row) as [c|e] eqn:Hc; simpl; [|discriminate].
    destruct (rows_candidates W H t rows) as [cs'|e]; simpl; [|discriminate].
    intros [= <-]. destruct (IH cs' eq_refl) as [Hlen Hfacts].
    split; [simpl; lia|]. intros b conf k Hin.
    apply elem_of_cons in Hin as [<-|Hin].
    + destruct (row_candidate_cases W H t row)
        as [[_ Hr]|[_ [Hr|(b' & conf' & k' & Hr & Hlt & Hk)]]];
        rewrite Hr in Hc; try discriminate.
      injection Hc as <- <- <-. split; [exact Hlt|].
      exists row. split; [apply elem_of_cons; auto | exact Hk].
    + destruct (Hfacts b conf k Hin) as (Hlt & row' & Hrow' & Hk).
      split; [exact Hlt|]. exists row'. split; [apply elem_of_cons; auto | exact Hk].
Qed.

Lemma length_omap_le {A B} (f : A -> option B) (l : list A) :
  (length (omap f l) <= length l)%nat.
Proof.
  induction l as [|x l IH]; [reflexivity|].
  change (omap f (x :: l))
    with (match f x with Some y => y :: omap f l | None => omap f l end).
  destruct (f x); simpl; lia.
Qed.

(** The facts that hold of every result of the decoder. *)
Lemma decode_facts layer_outputs W H t d :
  decode layer_outputs W H t = Ok d ->
  length (boxes d) = length (confidences d) /\
  length (class_IDs d) = length (confidences d) /\
  (length (boxes d) <= length (concat layer_outputs))%nat /\
  Forall (fun conf => F64.ltb t conf = true /\ F64.is_nan conf = false) (confidences d) /\
  (forall i k conf,
     class_IDs d !! i = Some k -> confidences d !! i = Some conf ->
     exists row, row ∈ concat layer_outputs /\ drop 5 row !! k = Some conf) /\
  (forall n, Forall (fun row => (length row <= n + 5)%nat) (concat layer_outputs) ->
             Forall (fun k => (k < n)%nat) (class_IDs d)) /\
  (Forall (fun row => (length row <= 85)%nat) (concat layer_outputs) ->
   Forall (fun k => exists l, index new_labels k = Ok l) (class_IDs d)).
Proof.
  rewrite decode_rows.
  destruct (rows_candidates W H t (concat layer_outputs)) as [rs|e] eqn:Hrs; simpl;
    [|discriminate].
  intros [= <-]. destruct (rows_candidates_facts _ _ _ _ _ Hrs) as [Hlen Hfacts].
  assert (Hin : forall i k conf,
            class_IDs (collect (omap id rs)) !! i = Some k ->
            confidences (collect (omap id rs)) !! i = Some conf ->
            exists b, Some (b, conf, k) ∈ rs).
  { intros i k conf. unfold collect. simpl. rewrite !list_lookup_fmap.
    destruct (omap id rs !! i) as [[[b conf'] k']|] eqn:Hi; simpl; [|discriminate].
    intros [= <-] [= <-]. exists b.
    apply list_elem_of_lookup_2 in Hi. apply list_elem_of_omap in Hi as (c & Hc & Hid).
    simpl in Hid. subst c. exact Hc. }
  assert (Hclass : forall n,
            Forall (fun row => (length row <= n + 5)%nat) (concat layer_outputs) ->
            Forall (fun k => (k < n)%nat) (class_IDs (collect (omap id rs)))).
  { intros n Hn. apply Forall_forall. intros k Hk.
    unfold collect in Hk. simpl in Hk.
    apply list_elem_of_fmap in Hk as ([[b conf] k'] & -> & Hc). simpl.
    apply list_elem_of_omap in Hc as (c & Hc & Hid). simpl in Hid. subst c.
    destruct (Hfacts _ _ _ Hc) as (_ & row & Hrow & Hk).
    rewrite Forall_forall in Hn. specialize (Hn _ Hrow).
    apply lookup_lt_Some in Hk. rewrite length_drop in Hk. lia. }
  unfold collect at 1 2 3 4 5. simpl. rewrite !length_map.
  split; [reflexivity|]. split; [reflexivity|]. split.
  { rewrite <- Hlen. apply length_omap_le. }
  split.
  { apply Forall_forall. intros conf Hconf.
    apply list_elem_of_fmap in Hconf as ([[b conf'] k] & -> & Hc). simpl.
    apply list_elem_of_omap in Hc as (c & Hc & Hid). simpl in Hid. subst c.
    destruct (Hfacts _ _ _ Hc) as (Hlt & _). split; [exact Hlt|].
    eapply ltb_not_nan_r; eauto. }
  split.
  { intros i k conf Hk Hconf. destruct (Hin i k conf Hk Hconf) as [b Hb].
    destruct (Hfacts _ _ _ Hb) as (_ & row & Hrow & Hkk). eauto. }
  split; [exact Hclass|].
  intros H85. eapply Forall_impl; [apply (Hclass 80%nat); exact H85|].
  intros k Hk. simpl in Hk. unfold index.
  destruct (new_labels !! k) as [l|] eqn:Hl; [eauto|].
  apply lookup_ge_None in Hl. simpl in Hl. lia.
Qed.

(** X3. The three lists the decoder returns have the same length, at most
    the number of rows; every confidence is strictly above the threshold
    (so none is a NaN), and every class is the position of that
    confidence among the class scores of some row. With rows of at most
    [n + 5] entries every class is below [n], so with the 85 entries of
    the network's rows the table of labels has an entry for it. *)
Theorem decode_invariants layer_outputs W H t d :
  decode layer_outputs W H t = Ok d ->
  length (boxes d) = length (confidences d) /\
  length (class_IDs d) = length (confidences d) /\
  (length (boxes d) <= length (concat layer_outputs))%nat /\
  Forall (fun conf => F64.ltb t conf = true /\ F64.is_nan conf = false) (confidences d) /\
  (forall i k conf,
     class_IDs d !! i = Some k -> confidences d !! i = Some conf ->
     exists row, row ∈ concat layer_outputs /\ drop 5 row !! k = Some conf) /\
  (forall n, Forall (fun row => (length row <= n + 5)%nat) (concat layer_outputs) ->
             Forall (fun k => (k < n)%nat) (class_IDs d)) /\
  (Forall (fun row => (length row <= 85)%nat) (concat layer_outputs) ->
   Forall (fun k => exists l, index new_labels k = Ok l) (class_IDs d)).
Proof. apply decode_facts. Qed.

Lemma decode_invariants_witness :
  decode example_output 100 100 (ratio 1 4)
  = Ok (mkDetections [(40, 40, 20, 20); (40, 40, 20, 20); (7, 7, 5, 5)]
                     [ratio 9 10; ratio 2 5; ratio 3 10] [0%nat; 0%nat; 0%nat]) /\
  Forall (fun conf => F64.ltb (ratio 1 4) conf = true /\ F64.is_nan conf = false)
         [ratio 9 10; ratio 2 5; ratio 3 10] /\
  Forall (fun k => (k < 2)%nat) [0%nat; 0%nat; 0%nat].
Proof.
  assert (H1 : decode example_output 100 100 (ratio 1 4)
               = Ok (mkDetections [(40, 40, 20, 20); (40, 40, 20, 20); (7, 7, 5, 5)]
                       [ratio 9 10; ratio 2 5; ratio 3 10] [0%nat; 0%nat; 0%nat]))
    by (vm_compute; reflexivity).
  split; [exact H1|].
  destruct (decode_invariants example_output 100 100 (ratio 1 4) _ H1)
    as (_ & _ & _ & Hconf & _ & Hclass & _).
  split; [exact Hconf|].
  apply (Hclass 2%nat). repeat constructor; simpl; lia.
Defined.

Lemma rows_candidates_filter W H t (P : list spec_float -> Prop)
    `{!forall row, Decision (P row)} rows :
  (forall row, ~ P row -> row_candidate W H t row = Ok None) ->
  (fun rs : list (option candidate) => omap id rs)
    <$> rows_candidates W H t (filter P rows)
  = (fun rs : list (option candidate) => omap id rs)
    <$> rows_candidates W H t rows.
Proof.
  intros Hdrop. induction rows as [|row rows IH]; [reflexivity|].
  rewrite filter_cons. destruct (decide (P row)) as [Hp|Hp]; simpl.
  - destruct (row_candidate W H t row) as [c|e]; simpl; [|reflexivity].
    destruct (rows_candidates W H t (filter P rows)) as [cs|e];
      destruct (rows_candidates W H t rows) as [cs'|e']; simpl in *;
      try discriminate; try congruence.
    injection IH as IH. f_equal.
    destruct c; [apply (f_equal (cons _)), IH | exact IH].
  - rewrite (Hdrop row Hp). simpl.
    destruct (rows_candidates W H t (filter P rows)) as [cs|e];
      destruct (rows_candidates W H t rows) as [cs'|e']; simpl in *;
      try discriminate; try congruence.
    injection IH as IH. f_equal. exact IH.
Qed.

Lemma concat_map_filter {A} (P : A -> Prop) `{!forall x, Decision (P x)}
    (ls : list (list A)) :
  concat (map (filter P) ls) = filter P (concat ls).
Proof.
  induction ls as [|l ls IH]; [reflexivity|]. simpl. rewrite filter_app, IH. reflexivity.
Qed.

(** X4. A row with a NaN among its class scores never gives a candidate,
    whatever the threshold and whatever its other scores: [np.argmax]
    stops on the NaN, which is not above any threshold. Removing such
    rows from the output leaves the result of the decoder as it is. *)
Theorem decode_drops_nan_rows layer_outputs W H t :
  decode (map (filter (fun row => ~ nan_row row)) layer_outputs) W H t
  = decode layer_outputs W H t.
Proof.
  rewrite !decode_rows, concat_map_filter.
  pose proof (rows_candidates_filter W H t (fun row => ~ nan_row row)
                (concat layer_outputs)) as Hf.
  destruct (rows_candidates W H t (filter (fun row => ~ nan_row row)
                                          (concat layer_outputs))) as [cs|e];
    destruct (rows_candidates W H t (concat layer_outputs)) as [cs'|e'];
    simpl in *;
    (lapply Hf; [intros Hf'|intros row Hrow; apply row_candidate_nan;
                            destruct (decide (nan_row row)); tauto]);
    try discriminate; congruence.
Qed.

Lemma keep_box_ok d df i :
  aligned df ->
  length (class_IDs d) = length (boxes d) ->
  Forall (fun k => (k < 80)%nat) (class_IDs d) ->
  (i < length (boxes d))%nat ->
  exists df', keep_box d df i = Ok df' /\ aligned df'.
Proof.
  intros Hal Hlen Hclass Hi. unfold keep_box, index.
  destruct (class_IDs d !! i) as [k|] eqn:Hk;
    [|apply lookup_ge_None in Hk; lia].
  simpl. rewrite Forall_forall in Hclass.
  assert (Hk80 : (k < 80)%nat) by (eapply Hclass, list_elem_of_lookup_2; eauto).
  destruct (new_labels !! k) as [l|] eqn:Hl;
    [|apply lookup_ge_None in Hl; simpl in Hl; lia].
  simpl. destruct l as [s|]; [|eauto].
  destruct (boxes d !! i) as [[[[x y] w] h]|] eqn:Hb;
    [|apply lookup_ge_None in Hb; lia].
  simpl. eexists. split; [reflexivity|].
  destruct Hal as (H1 & H2 & H3 & H4). unfold aligned. simpl.
  rewrite !length_app. simpl. lia.
Qed.

Lemma keep_box_fold_ok d idxs : forall df,
  aligned df ->
  length (class_IDs d) = length (boxes d) ->
  Forall (fun k => (k < 80)%nat) (class_IDs d) ->
  Forall (fun i => (i < length (boxes d))%nat) idxs ->
  exists df', fold_result (keep_box d) df idxs = Ok df' /\ aligned df'.
Proof.
  induction idxs as [|i idxs IH]; intros df Hal Hlen Hclass Hidx; simpl; [eauto|].
  inversion Hidx as [|? ? Hi Hrest]; subst.
  destruct (keep_box_ok d df i Hal Hlen Hclass Hi) as (df1 & -> & Hal1). simpl.
  apply IH; assumption.
Qed.

Lemma keep_box_fold_raise d idxs : forall df,
  aligned df ->
  length (class_IDs d) = length (boxes d) ->
  Forall (fun k => (k < 80)%nat) (class_IDs d) ->
  Exists (fun i => (length (boxes d) <= i)%nat) idxs ->
  fold_result (keep_box d) df idxs = Raise IndexError.
Proof.
  induction idxs as [|i idxs IH]; intros df Hal Hlen Hclass Hex; [inversion Hex|].
  simpl. destruct (le_lt_dec (length (boxes d)) i) as [Hbad|Hgood].
  - unfold keep_box, index.
    rewrite (proj2 (lookup_ge_None (class_IDs d) i)) by lia. reflexivity.
  - destruct (keep_box_ok d df i Hal Hlen Hclass Hgood) as (df1 & -> & Hal1). simpl.
    apply IH; try assumption.
    inversion Hex; subst; [lia | assumption].
Qed.

(** X5. For the lists [d] decoded from rows of at most 85 entries, the
    loop of [yolo_v3] over kept indices raises nothing when every index is
    a position of the lists, and returns a table whose five columns have
    the same length, with the rows of the indices whose class has a
    label; it raises [IndexError] when some index is not such a position.
    [yolo_v3] is this loop on the indices returned by the suppression. *)
Theorem kept_boxes_total layer_outputs W H ct d idxs :
  decode layer_outputs W H ct = Ok d ->
  Forall (fun row => (length row <= 85)%nat) (concat layer_outputs) ->
  (Forall (fun i => (i < length (boxes d))%nat) idxs ->
   exists df, kept_boxes d idxs = Ok df /\ aligned df /\
              iterrows df = omap (kept_row d) idxs /\
              (length (iterrows df) <= length idxs)%nat) /\
  (Exists (fun i => (length (boxes d) <= i)%nat) idxs ->
   kept_boxes d idxs = Raise IndexError) /\
  (forall ot, yolo_v3 layer_outputs W H ct ot
              = kept_boxes d (NMSBoxes (boxes d) (confidences d) ct ot)).
Proof.
  intros Hd H85.
  destruct (decode_facts _ _ _ _ _ Hd) as (Hl1 & Hl2 & _ & _ & _ & Hclass & _).
  specialize (Hclass 80%nat H85).
  assert (Hlen : length (class_IDs d) = length (boxes d)) by lia.
  assert (Hempty : aligned (mkBoxFrame [] [] [] [] [])) by (repeat split).
  assert (Hfold : forall l, kept_boxes d l
            = fold_result (keep_box d) (mkBoxFrame [] [] [] [] []) l).
  { intros [|i l]; reflexivity. }
  split; [|split].
  - intros Hidx. rewrite Hfold.
    destruct (keep_box_fold_ok d idxs _ Hempty Hlen Hclass Hidx) as (df & Hdf & Hal).
    exists df. split; [exact Hdf|]. split; [exact Hal|].
    pose proof (keep_box_fold d idxs _ _ Hempty Hdf) as Hrows. simpl in Hrows.
    split; [exact Hrows|]. rewrite Hrows. apply length_omap_le.
  - intros Hex. rewrite Hfold. apply keep_box_fold_raise; assumption.
  - intros ot. unfold yolo_v3. rewrite Hd. reflexivity.
Qed.

Lemma kept_boxes_total_witness :
  decode example_output 100 100 (ratio 1 4)
  = Ok (mkDetections [(40, 40, 20, 20); (40, 40, 20, 20); (7, 7, 5, 5)]
                     [ratio 9 10; ratio 2 5; ratio 3 10] [0%nat; 0%nat; 0%nat]) /\
  Forall (fun row => (length row <= 85)%nat) (concat example_output) /\
  kept_boxes (mkDetections [(40, 40, 20, 20); (40, 40, 20, 20); (7, 7, 5, 5)]
                [ratio 9 10; ratio 2 5; ratio 3 10] [0%nat; 0%nat; 0%nat]) [0%nat; 3%nat]
  = Raise IndexError /\
  exists df,
    kept_boxes (mkDetections [(40, 40, 20, 20); (40, 40, 20, 20); (7, 7, 5, 5)]
                  [ratio 9 10; ratio 2 5; ratio 3 10] [0%nat; 0%nat; 0%nat]) [2%nat; 0%nat]
    = Ok df /\
    iterrows df = [mkBox 7 7 12 12 "pedestrian"; mkBox 40 40 60 60 "pedestrian"].
Proof.
  assert (H1 : decode example_output 100 100 (ratio 1 4)
               = Ok (mkDetections [(40, 40, 20, 20); (40, 40, 20, 20); (7, 7, 5, 5)]
                       [ratio 9 10; ratio 2 5; ratio 3 10] [0%nat; 0%nat; 0%nat]))
    by (vm_compute; reflexivity).
  assert (H85 : Forall (fun row => (length row <= 85)%nat) (concat example_output))
    by (repeat constructor; simpl; lia).
  split; [exact H1|]. split; [exact H85|]. split.
  - destruct (kept_boxes_total example_output 100 100 (ratio 1 4) _ [0%nat; 3%nat] H1 H85)
      as (_ & Hraise & _).
    apply Hraise. apply Exists_cons_tl, Exists_cons_hd. simpl. lia.
  - destruct (kept_boxes_total example_output 100 100 (ratio 1 4) _ [2%nat; 0%nat] H1 H85)
      as (Hok & _ & _).
    destruct Hok as (df & Hdf & _ & Hrows & _); [repeat constructor; simpl; lia|].
    exists df. split; [exact Hdf|]. rewrite Hrows. reflexivity.
Defined.

(* ================================================================= *)
(** ** Empty slices and the blend in integers *)

Lemma crosses_edge_empty len lo hi :
  crosses_edge len lo hi -> (slice_bound len hi <= slice_bound len lo)%nat.
Proof.
  intros [[Hlo Hhi] Hlen]. unfold slice_bound.
  destruct (Z.ltb_spec lo 0), (Z.ltb_spec hi 0); lia.
Qed.

Lemma reversed_empty len lo hi :
  reversed lo hi -> (slice_bound len hi <= slice_bound len lo)%nat.
Proof.
  intros [Hle Hside]. unfold slice_bound.
  destruct (Z.ltb_spec lo 0), (Z.ltb_spec hi 0); lia.
Qed.

Lemma in_rect_undrawn sh b y x : undrawn sh b -> in_rect sh b y x = false.
Proof.
  unfold in_rect.
  intros [Hx|[Hy|[Hx|Hy]]];
    [ rewrite (in_slice_empty (xmin b)) by (apply crosses_edge_empty, Hx)
    | rewrite (in_slice_empty (ymin b)) by (apply crosses_edge_empty, Hy)
    | rewrite (in_slice_empty (xmin b)) by (apply reversed_empty, Hx)
    | rewrite (in_slice_empty (ymin b)) by (apply reversed_empty, Hy) ];
    auto using andb_false_r.
Qed.

(** X6. A box of the palette that sticks out over the left or the top
    edge (a negative minimum, a maximum that is not negative) and is not
    longer than the image on that axis is not drawn at all: the negative
    bound counts from the far edge, and the slice is empty. The same holds
    for a box whose bounds are in the wrong order on one side of zero.
    With only such boxes [add_boxes] returns a copy of the source. *)
Theorem add_boxes_crossing_box_not_drawn (h : list ndarray) image px bs :
  h !! image = Some (Uint8 px) ->
  Forall (fun b => in_palette b /\ undrawn (shape px) b) bs ->
  exists out h',
    add_boxes image bs h = (Ok out, h') /\
    h !! out = None /\
    h' !! out = Some (Uint8 px) /\
    h' !! image = Some (Uint8 px).
Proof.
  intros Hl Hbs. rewrite (add_boxes_run _ _ _ _ Hl). cbv zeta.
  rewrite annotate_id.
  - eexists _, _. split; [reflexivity|]. split; [apply lookup_ge_None; lia|]. split.
    + rewrite lookup_app_r, Nat.sub_succ_l, Nat.sub_diag by lia. simpl.
      rewrite map_map_roundtrip. reflexivity.
    + apply lookup_app_l_Some. exact Hl.
  - eapply Forall_impl; [exact Hbs|]. intros b [Hb _]. exact Hb.
  - intros b y x Hb. rewrite shape_map. apply in_rect_undrawn.
    rewrite Forall_forall in Hbs. apply Hbs. exact Hb.
Qed.

Lemma add_boxes_crossing_box_not_drawn_witness :
  [Uint8 example_image] !! 0%nat = Some (Uint8 example_image) /\
  Forall (fun b => in_palette b /\ undrawn (shape example_image) b)
         [mkBox (-1) 0 1 2 "car"; mkBox 0 (-1) 2 1 "truck"; mkBox 1 0 0 2 "biker"] /\
  exists out h',
    add_boxes 0%nat [mkBox (-1) 0 1 2 "car"; mkBox 0 (-1) 2 1 "truck"; mkBox 1 0 0 2 "biker"]
              [Uint8 example_image]
    = (Ok out, h') /\
    h' !! out = Some (Uint8 example_image).
Proof.
  assert (Hbs : Forall (fun b => in_palette b /\ undrawn (shape example_image) b)
            [mkBox (-1) 0 1 2 "car"; mkBox 0 (-1) 2 1 "truck"; mkBox 1 0 0 2 "biker"]).
  { repeat (apply Forall_cons_2;
              [split; [vm_compute; eauto
                      | unfold undrawn, crosses_edge, reversed; simpl; lia]|]).
    apply Forall_nil_2. }
  split; [reflexivity|]. split; [exact Hbs|].
  destruct (add_boxes_crossing_box_not_drawn [Uint8 example_image] 0%nat example_image _
              eq_refl Hbs) as (out & h' & Hrun & _ & Hout & _).
  exists out, h'. split; [exact Hrun | exact Hout].
Defined.

Lemma palette_colors l c :
  LABEL_COLORS !! l = Some c ->
  c ∈ [(255, 0, 0); (0, 255, 0); (0, 0, 255); (255, 255, 0); (255, 0, 255)].
Proof.
  unfold LABEL_COLORS. intros Hc.
  repeat (apply lookup_insert_Some in Hc as [[_ <-]|[_ Hc]];
          [rewrite !elem_of_cons; tauto|]).
  apply lookup_singleton_Some in Hc as [_ <-]. rewrite !elem_of_cons. tauto.
Qed.

Lemma foldl_blend_colors sh y x bs : forall v,
  Forall in_palette bs ->
  foldl (blend_at sh y x) v bs = foldl average v (colors_at sh y x bs).
Proof.
  unfold colors_at, covering.
  induction bs as [|b bs IH]; intros v Hpal; [reflexivity|].
  inversion Hpal as [|? ? [c Hc] Hpal']; subst. simpl.
  rewrite filter_cons. unfold blend_at at 2.
  destruct (decide (in_rect sh b y x = true)) as [Hin|Hout].
  - rewrite Hin, Hc. simpl. rewrite Hc. simpl. apply IH, Hpal'.
  - apply not_true_is_false in Hout. rewrite Hout. apply IH, Hpal'.
Qed.

Lemma colors_at_palette sh y x bs :
  Forall (fun c => c ∈ [(255, 0, 0); (0, 255, 0); (0, 0, 255); (255, 255, 0); (255, 0, 255)])
         (colors_at sh y x bs).
Proof.
  apply Forall_forall. intros c Hc. unfold colors_at in Hc.
  apply list_elem_of_omap in Hc as (b & _ & Hb). eapply palette_colors, Hb.
Qed.

Lemma foldl_average cs : forall r g b,
  foldl average (r, g, b) cs
  = (foldl (fun v c => F64.div (F64.add v (F64.of_Z c)) (F64.of_Z 2)) r (map (fun c => c.1.1) cs),
     foldl (fun v c => F64.div (F64.add v (F64.of_Z c)) (F64.of_Z 2)) g (map (fun c => c.1.2) cs),
     foldl (fun v c => F64.div (F64.add v (F64.of_Z c)) (F64.of_Z 2)) b (map snd cs)).
Proof.
  induction cs as [|[[cr cg] cb] cs IH]; intros r g b; [reflexivity|].
  cbn [foldl map]. unfold average at 2. cbv [rgb_map2]. apply IH.
Qed.

Lemma foldl_mix cs : forall r g b,
  foldl mix (r, g, b) cs
  = (foldl (fun p c => byte_of_Z ((u8 p + c) / 2)) r (map (fun c => c.1.1) cs),
     foldl (fun p c => byte_of_Z ((u8 p + c) / 2)) g (map (fun c => c.1.2) cs),
     foldl (fun p c => byte_of_Z ((u8 p + c) / 2)) b (map snd cs)).
Proof.
  induction cs as [|[[cr cg] cb] cs IH]; intros r g b; [reflexivity|].
  cbn [foldl map]. unfold mix at 2. cbv [rgb_map2]. apply IH.
Qed.

Lemma average_channel b cs :
  Forall (fun c => c = 0 \/ c = 255) cs ->
  (length cs <= 3)%nat ->
  f64_to_u8 (foldl (fun v c => F64.div (F64.add v (F64.of_Z c)) (F64.of_Z 2))
                   (u8_to_f64 b) cs)
  = foldl (fun p c => byte_of_Z ((u8 p + c) / 2)) b cs.
Proof.
  intros Hcs Hlen.
  destruct cs as [|c1 [|c2 [|c3 [|c4 cs]]]]; simpl in Hlen; [| | | |lia];
    repeat match goal with
           | H : Forall _ (_ :: _) |- _ => apply Forall_cons in H as [[-> | ->] H]
           end;
    destruct b; vm_compute; reflexivity.
Qed.

Lemma blend_exact p cs :
  Forall (fun c => c ∈ [(255, 0, 0); (0, 255, 0); (0, 0, 255); (255, 255, 0); (255, 0, 255)])
         cs ->
  (length cs <= 3)%nat ->
  rgb_map f64_to_u8 (foldl average (rgb_map u8_to_f64 p) cs) = foldl mix p cs.
Proof.
  intros Hcs Hlen. destruct p as [[r g] b].
  cbv [rgb_map]. rewrite foldl_average, foldl_mix.
  rewrite !average_channel; [reflexivity|..]; rewrite ?length_map; try exact Hlen;
    apply Forall_fmap; (eapply Forall_impl; [exact Hcs|]);
    intros c Hc; rewrite !elem_of_cons in Hc;
    destruct Hc as [->|[->|[->|[->|[->|Hc]]]]]; try inversion Hc; simpl; lia.
Qed.

(** X7. With every label in the palette, a pixel whose position is in
    the slice of at most three boxes comes out as in integer arithmetic:
    for each of these boxes in turn, the average of the channel and of
    the colour's channel, rounded down. The [float64] detour and the one
    truncation at the end change nothing; with one box a channel [p]
    becomes [(p + c) / 2]. *)
Theorem add_boxes_integer_blend (h : list ndarray) image px bs :
  h !! image = Some (Uint8 px) ->
  Forall in_palette bs ->
  exists out px' h',
    add_boxes image bs h = (Ok out, h') /\
    h' !! out = Some (Uint8 px') /\
    forall y x,
      (length (covering (shape px) y x bs) <= 3)%nat ->
      pixel px' y x
      = (fun p => foldl mix p (colors_at (shape px) y x bs)) <$> pixel px y x.
Proof.
  intros Hl Hpal.
  destruct (add_boxes_ok h image px bs Hl Hpal) as (out & px' & h' & Hrun & Hout & Hpx).
  exists out, px', h'. split; [exact Hrun|]. split; [exact Hout|].
  intros y x Hcov. rewrite Hpx. destruct (pixel px y x) as [p|]; [|reflexivity].
  simpl. f_equal. rewrite foldl_blend_colors by exact Hpal.
  apply blend_exact; [apply colors_at_palette|].
  unfold colors_at. etransitivity; [apply length_omap_le | exact Hcov].
Qed.

Lemma add_boxes_integer_blend_witness :
  [Uint8 example_image] !! 0%nat = Some (Uint8 example_image) /\
  Forall in_palette example_boxes /\
  exists out px' h',
    add_boxes 0%nat example_boxes [Uint8 example_image] = (Ok out, h') /\
    h' !! out = Some (Uint8 px') /\
    pixel px' 0 1 = Some (mix (xff, x01, x02) (255, 0, 0)) /\
    pixel px' 1 1 = Some (mix (mix (x10, x20, x30) (255, 0, 0)) (0, 0, 255)).
Proof.
  split; [reflexivity|]. split; [exact example_boxes_in_palette|].
  destruct (add_boxes_integer_blend [Uint8 example_image] 0%nat example_image
              example_boxes eq_refl example_boxes_in_palette)
    as (out & px' & h' & Hrun & Hout & Hpx).
  exists out, px', h'. split; [exact Hrun|]. split; [exact Hout|].
  split; rewrite Hpx by (vm_compute; lia); vm_compute; reflexivity.
Defined.

(* ================================================================= *)
(** ** The order of the boxes, the boxes of [yolo_v3], the range of the frames *)

Lemma array_ext {A} (a b : list (list (rgb A))) :
  length a = length b ->
  (forall y, length <$> a !! y = length <$> b !! y) ->
  (forall y x, pixel a y x = pixel b y x) ->
  a = b.
Proof.
  intros Hlen Hrow Hpix. apply list_eq. intros y.
  specialize (Hrow y). pose proof (Hpix y) as Hy. unfold pixel in Hy.
  destruct (a !! y) as [ra|], (b !! y) as [rb|]; simpl in *; try discriminate;
    [|reflexivity].
  f_equal. apply list_eq. exact Hy.
Qed.

Lemma Permutation_constant {A} (l l' : list A) :
  l ≡ₚ l' -> (forall a b, a ∈ l -> b ∈ l -> a = b) -> l = l'.
Proof.
  intros Hperm Hconst. destruct l as [|a l].
  - apply Permutation_nil_l. exact Hperm.
  - assert (Ha : forall l0, l0 ≡ₚ a :: l -> l0 = replicate (length (a :: l)) a).
    { intros l0 H0. symmetry. apply replicate_as_Forall. split.
      - rewrite H0. reflexivity.
      - apply Forall_forall. intros b Hb. apply Hconst; [left|].
        rewrite <- H0. exact Hb. }
    rewrite (Ha (a :: l)) by reflexivity. symmetry. apply Ha. symmetry. exact Hperm.
Qed.

Lemma colors_at_Permutation sh y x bs bs' :
  bs ≡ₚ bs' -> colors_at sh y x bs ≡ₚ colors_at sh y x bs'.
Proof. intros Hperm. unfold colors_at, covering. rewrite Hperm. reflexivity. Qed.

Lemma colors_at_constant sh y x bs c1 c2 :
  (forall b1 b2, b1 ∈ bs -> b2 ∈ bs ->
     in_rect sh b1 y x = true -> in_rect sh b2 y x = true -> label b1 = label b2) ->
  c1 ∈ colors_at sh y x bs -> c2 ∈ colors_at sh y x bs -> c1 = c2.
Proof.
  intros Hsame H1 H2. unfold colors_at, covering in H1, H2.
  apply list_elem_of_omap in H1 as (b1 & Hb1 & Hc1).
  apply list_elem_of_omap in H2 as (b2 & Hb2 & Hc2).
  apply list_elem_of_filter in Hb1 as [Hin1 Hb1].
  apply list_elem_of_filter in Hb2 as [Hin2 Hb2].
  rewrite (Hsame b1 b2 Hb1 Hb2 Hin1 Hin2) in Hc1. congruence.
Qed.

(** X8. When the boxes that share a pixel always carry the same label
    (as do boxes whose slices are disjoint), the order of the rows of the
    table does not matter: [add_boxes] returns the same image for any
    rearrangement of the rows. *)
Theorem add_boxes_order_irrelevant (h : list ndarray) image px bs bs' :
  h !! image = Some (Uint8 px) ->
  Forall in_palette bs ->
  bs ≡ₚ bs' ->
  (forall y x b1 b2, b1 ∈ bs -> b2 ∈ bs ->
     in_rect (shape px) b1 y x = true -> in_rect (shape px) b2 y x = true ->
     label b1 = label b2) ->
  exists out px' h1 h2,
    add_boxes image bs h = (Ok out, h1) /\
    add_boxes image bs' h = (Ok out, h2) /\
    h1 !! out = Some (Uint8 px') /\
    h2 !! out = Some (Uint8 px').
Proof.
  intros Hl Hpal Hperm Hsame.
  assert (Hpal' : Forall in_palette bs') by (rewrite <- Hperm; exact Hpal).
  rewrite !(add_boxes_run _ _ _ _ Hl). cbv zeta.
  set (a0 := map (map (rgb_map u8_to_f64)) px).
  destruct (annotate_ok bs a0 Hpal) as [Hok Hpx].
  destruct (annotate_ok bs' a0 Hpal') as [Hok' Hpx'].
  assert (Heq : snd (annotate a0 bs) = snd (annotate a0 bs')).
  { apply array_ext.
    - pose proof (annotate_shape bs a0) as H1. pose proof (annotate_shape bs' a0) as H2.
      apply (f_equal fst) in H1, H2. simpl in H1, H2. congruence.
    - intros y. rewrite !annotate_row_length. reflexivity.
    - intros y x. rewrite Hpx, Hpx'. destruct (pixel a0 y x) as [v|]; [|reflexivity].
      simpl. f_equal. rewrite !foldl_blend_colors by assumption. f_equal.
      unfold a0. rewrite shape_map. apply Permutation_constant.
      + apply colors_at_Permutation, Hperm.
      + intros c1 c2. apply colors_at_constant, Hsame. }
  destruct (annotate a0 bs) as [r a], (annotate a0 bs') as [r' a'].
  simpl in *. subst r r' a'.
  eexists _, _, _, _. split; [reflexivity|]. split; [reflexivity|].
  split; rewrite lookup_app_r, Nat.sub_succ_l, Nat.sub_diag by lia; reflexivity.
Qed.

Lemma add_boxes_order_irrelevant_witness :
  let bs := [mkBox 0 0 1 2 "car"; mkBox 1 0 2 1 "truck"; mkBox 1 1 2 2 "car"] in
  let bs' := [mkBox 1 1 2 2 "car"; mkBox 1 0 2 1 "truck"; mkBox 0 0 1 2 "car"] in
  [Uint8 example_image] !! 0%nat = Some (Uint8 example_image) /\
  Forall in_palette bs /\ bs ≡ₚ bs' /\
  exists out px' h1 h2,
    add_boxes 0%nat bs [Uint8 example_image] = (Ok out, h1) /\
    add_boxes 0%nat bs' [Uint8 example_image] = (Ok out, h2) /\
    h1 !! out = Some (Uint8 px') /\
    h2 !! out = Some (Uint8 px').
Proof.
  intros bs bs'.
  assert (Hpal : Forall in_palette bs)
    by (repeat (apply Forall_cons_2; [vm_compute; eauto|]); apply Forall_nil_2).
  assert (Hperm : bs ≡ₚ bs').
  { unfold bs, bs'. etransitivity; [apply Permutation_swap|].
    etransitivity; [apply Permutation_skip, Permutation_swap|].
    apply Permutation_swap. }
  split; [reflexivity|]. split; [exact Hpal|]. split; [exact Hperm|].
  apply (add_boxes_order_irrelevant [Uint8 example_image] 0%nat example_image bs bs'
           eq_refl Hpal Hperm).
  intros y x b1 b2 H1 H2.
  unfold bs in H1, H2. rewrite !elem_of_cons in H1, H2.
  destruct H1 as [->|[->|[->|H1]]]; [| | |inversion H1];
    (destruct H2 as [->|[->|[->|H2]]]; [| | |inversion H2]);
    try reflexivity;
    destruct y as [|[|y]], x as [|[|x]]; vm_compute; congruence.
Defined.

Lemma kept_boxes_rows d idxs df :
  kept_boxes d idxs = Ok df -> iterrows df = omap (kept_row d) idxs.
Proof.
  assert (Hempty : aligned (mkBoxFrame [] [] [] [] [])) by (repeat split).
  unfold kept_boxes. destruct idxs as [|i idxs]; [intros [= <-]; reflexivity|].
  cbv zeta. change (0 <? length (i :: idxs))%nat with true. cbv iota.
  intros Hdf. apply (keep_box_fold _ _ _ _ Hempty Hdf).
Qed.

Lemma kept_boxes_palette d idxs df :
  kept_boxes d idxs = Ok df -> Forall in_palette (iterrows df).
Proof.
  intros Hdf. rewrite (kept_boxes_rows _ _ _ Hdf). apply Forall_forall.
  intros b Hb. apply list_elem_of_omap in Hb as (i & _ & Hi).
  eapply kept_row_palette, Hi.
Qed.

(** X9. The table that [yolo_v3] returns can always be drawn: its labels
    come from the table of labels, whose entries are in the palette, so
    [add_boxes] raises nothing on it and returns a new image, whatever
    indices the suppression has kept. *)
Theorem add_boxes_draws_yolo_v3 (h : list ndarray) image px :
  h !! image = Some (Uint8 px) ->
  (forall d idxs df,
     kept_boxes d idxs = Ok df ->
     exists out px' h',
       add_boxes image (iterrows df) h = (Ok out, h') /\
       h !! out = None /\
       h' !! out = Some (Uint8 px') /\
       h' !! image = Some (Uint8 px)) /\
  (forall layer_outputs W H ct ot df,
     yolo_v3 layer_outputs W H ct ot = Ok df ->
     exists out px' h',
       add_boxes image (iterrows df) h = (Ok out, h') /\
       h !! out = None /\
       h' !! out = Some (Uint8 px') /\
       h' !! image = Some (Uint8 px)).
Proof.
  intros Hl.
  assert (Hkept : forall d idxs df,
     kept_boxes d idxs = Ok df ->
     exists out px' h',
       add_boxes image (iterrows df) h = (Ok out, h') /\
       h !! out = None /\
       h' !! out = Some (Uint8 px') /\
       h' !! image = Some (Uint8 px)).
  { intros d idxs df Hdf. pose proof (kept_boxes_palette _ _ _ Hdf) as Hpal.
    rewrite (add_boxes_run _ _ _ _ Hl). cbv zeta.
    destruct (annotate_ok (iterrows df) (map (map (rgb_map u8_to_f64)) px) Hpal)
      as [Hok _].
    destruct (annotate _ (iterrows df)) as [r a]. simpl in Hok. subst r.
    eexists _, _, _. split; [reflexivity|]. split; [apply lookup_ge_None; lia|].
    split.
    - rewrite lookup_app_r, Nat.sub_succ_l, Nat.sub_diag by lia. reflexivity.
    - apply lookup_app_l_Some. exact Hl. }
  split; [exact Hkept|].
  intros outs W H ct ot df. unfold yolo_v3.
  destruct (decode outs W H ct) as [d|e]; simpl; [|discriminate].
  apply (Hkept d).
Qed.

Lemma add_boxes_draws_yolo_v3_witness :
  [Uint8 example_image] !! 0%nat = Some (Uint8 example_image) /\
  exists df out px' h',
    yolo_v3 example_output 100 100 (ratio 1 4) (ratio 3 10) = Ok df /\
    add_boxes 0%nat (iterrows df) [Uint8 example_image] = (Ok out, h') /\
    h' !! out = Some (Uint8 px').
Proof.
  split; [reflexivity|].
  destruct (yolo_v3 example_output 100 100 (ratio 1 4) (ratio 3 10)) as [df|e] eqn:Hdf;
    [|vm_compute in Hdf; discriminate].
  destruct (add_boxes_draws_yolo_v3 [Uint8 example_image] 0%nat example_image eq_refl)
    as [_ Hyolo].
  destruct (Hyolo _ _ _ _ _ _ Hdf) as (out & px' & h' & Hrun & _ & Hout & _).
  exists df, out, px', h'. split; [reflexivity|]. split; [exact Hrun | exact Hout].
Defined.

Lemma select_mask_sublist names : forall mask, sublist (select_mask names mask) names.
Proof.
  induction names as [|f names IH]; intros [|m mask]; simpl;
    try apply sublist_nil_l.
  destruct m; [apply sublist_skip | apply sublist_cons]; apply IH.
Qed.

Lemma select_mask_mono names a b a' b' : forall column,
  a' <= a -> b <= b' ->
  sublist (select_mask names
             (zip_with andb (map (fun c => a <=? c) column) (map (fun c => c <=? b) column)))
          (select_mask names
             (zip_with andb (map (fun c => a' <=? c) column)
                            (map (fun c => c <=? b') column))).
Proof.
  intros column Ha Hb. revert column.
  induction names as [|f names IH]; intros [|c column]; simpl; try apply sublist_nil_l.
  destruct (Z.leb_spec a c), (Z.leb_spec c b), (Z.leb_spec a' c), (Z.leb_spec c b');
    simpl; try lia;
    first [apply sublist_skip | apply sublist_cons | idtac]; apply IH.
Qed.

Lemma select_mask_empty names a b : forall column,
  b < a ->
  select_mask names
    (zip_with andb (map (fun c => a <=? c) column) (map (fun c => c <=? b) column)) = [].
Proof.
  intros column Hab. revert column.
  induction names as [|f names IH]; intros [|c column]; simpl; try reflexivity.
  destruct (Z.leb_spec a c), (Z.leb_spec c b); simpl; try lia; apply IH.
Qed.

(** X10. [get_selected_frames] raises [KeyError] for a label that is no
    column of the summary. For a column it returns frames of the summary
    in the summary's order, none twice unless the summary has it twice;
    none at all when [max_elts < min_elts]; and widening the range only
    adds frames, without reordering the ones already selected. *)
Theorem get_selected_frames_widening summary label :
  (summary_columns summary !! label = None ->
   forall min_elts max_elts,
     get_selected_frames summary label min_elts max_elts = Raise (KeyError label)) /\
  (is_Some (summary_columns summary !! label) ->
   forall min_elts max_elts,
     exists frames,
       get_selected_frames summary label min_elts max_elts = Ok frames /\
       sublist frames (summary_index summary) /\
       (max_elts < min_elts -> frames = []) /\
       forall min_elts' max_elts',
         min_elts' <= min_elts -> max_elts <= max_elts' ->
         exists frames',
           get_selected_frames summary label min_elts' max_elts' = Ok frames' /\
           sublist frames frames').
Proof.
  unfold get_selected_frames. split.
  - intros ->. reflexivity.
  - intros [column ->] a b. eexists. split; [reflexivity|]. split; [|split].
    + apply select_mask_sublist.
    + apply select_mask_empty.
    + intros a' b' Ha Hb. eexists. split; [reflexivity|].
      apply select_mask_mono; assumption.
Qed.

(* ================================================================= *)
(** ** The summary of the metadata *)

Lemma group_sum_count metadata f v :
  group_sum ((fun r : string * Box => (r.1, label r.2)) <$> metadata).*1
            ((fun r : string * string => if decide (r.2 = v) then 1 else 0)
               <$> ((fun r : string * Box => (r.1, label r.2)) <$> metadata))
            f
  = count_label v (ground_truth metadata f).
Proof.
  unfold group_sum, count_label, ground_truth.
  induction metadata as [|[f' b] md IH]; [reflexivity|].
  cbn [fmap list_fmap zip zip_with fst snd]. rewrite !filter_cons. cbn [fst snd].
  change (list_fmap _ _ ?g ?l) with (g <$> l) in *.
  destruct (decide (f' = f)) as [Hf|Hf]; [|exact IH].
  cbn [fmap list_fmap foldr snd]. change (list_fmap _ _ ?g ?l) with (g <$> l) in *.
  rewrite IH, filter_cons.
  destruct (decide (label b = v)); simpl length; lia.
Qed.

Lemma create_summary_index metadata :
  summary_index (create_summary metadata) ≡ₚ remove_dups metadata.*1.
Proof.
  unfold create_summary, groupby_sum, get_dummies. simpl.
  rewrite merge_sort_Permutation, <- list_fmap_compose. reflexivity.
Qed.

Lemma create_summary_columns metadata name column :
  summary_columns (create_summary metadata) !! name = Some column <->
  exists v, v ∈ label <$> metadata.*2 /\ name = "label_" +:+ v /\
            column = (fun f => count_label v (ground_truth metadata f))
                       <$> summary_index (create_summary metadata).
Proof.
  unfold create_summary, groupby_sum, get_dummies. cbn [fst snd summary_columns summary_index].
  rewrite lookup_fmap.
  set (table := (fun r : string * Box => (r.1, label r.2)) <$> metadata).
  set (index := merge_sort str_le (remove_dups table.*1)).
  assert (Hlabels : table.*2 = label <$> metadata.*2).
  { unfold table. rewrite <- !list_fmap_compose. reflexivity. }
  split.
  - destruct (list_to_map _ !! name) as [col|] eqn:Hcol; [|discriminate].
    intros [= <-]. apply elem_of_list_to_map_2 in Hcol.
    apply list_elem_of_fmap in Hcol as (v & [= -> ->] & Hv).
    rewrite elem_of_remove_dups in Hv. exists v. rewrite <- Hlabels.
    split; [exact Hv|]. split; [reflexivity|].
    apply list_fmap_ext. intros i f _. apply group_sum_count.
  - intros (v & Hv & -> & ->).
    destruct (list_to_map _ !! ("label_" +:+ v)) as [col|] eqn:Hcol.
    + apply elem_of_list_to_map_2 in Hcol.
      apply list_elem_of_fmap in Hcol as (v' & [= Hname ->] & _).
      change (v = v') in Hname. subst v'. simpl. f_equal.
      apply list_fmap_ext. intros i f _. apply group_sum_count.
    + exfalso. apply not_elem_of_list_to_map in Hcol. apply Hcol.
      rewrite <- list_fmap_compose. apply list_elem_of_fmap. exists v.
      split; [reflexivity|]. apply elem_of_remove_dups. rewrite Hlabels. exact Hv.
Qed.

Lemma ground_truth_nonempty metadata f :
  f ∈ metadata.*1 <-> ground_truth metadata f <> [].
Proof.
  unfold ground_truth. split.
  - intros Hf Hnil. apply list_elem_of_fmap in Hf as ([f' b] & Hf & Hin).
    simpl in Hf. subst f. apply fmap_nil_inv in Hnil.
    assert (Hb : (f', b) ∈ filter (fun r : string * Box => r.1 = f') metadata)
      by (apply list_elem_of_filter; split; [reflexivity | exact Hin]).
    rewrite Hnil in Hb. inversion Hb.
  - intros Hne.
    destruct (filter (fun r : string * Box => r.1 = f) metadata) as [|[f' b] l] eqn:Hfl;
      [contradiction|].
    assert (Hb : (f', b) ∈ filter (fun r : string * Box => r.1 = f) metadata)
      by (rewrite Hfl; left).
    apply list_elem_of_filter in Hb as [Hf' Hin]. simpl in Hf'. subst f'.
    apply list_elem_of_fmap. exists (f, b). split; [reflexivity | exact Hin].
Qed.

(** X11. The summary has one row for every frame of the metadata, each
    frame once, the frames in increasing order. Its columns are named
    [label_v], one for every label [v] of the metadata, and such a column
    holds for each frame the number of the frame's boxes with label [v]. *)
Theorem create_summary_counts metadata :
  NoDup (summary_index (create_summary metadata)) /\
  Sorted str_le (summary_index (create_summary metadata)) /\
  (forall f, f ∈ summary_index (create_summary metadata) <-> f ∈ metadata.*1) /\
  (forall name column,
     summary_columns (create_summary metadata) !! name = Some column <->
     exists v, v ∈ label <$> metadata.*2 /\ name = "label_" +:+ v /\
               column = (fun f => count_label v (ground_truth metadata f))
                          <$> summary_index (create_summary metadata)) /\
  (forall f, f ∈ metadata.*1 <-> ground_truth metadata f <> []).
Proof.
  split; [|split; [|split; [|split]]].
  - rewrite create_summary_index. apply NoDup_remove_dups.
  - unfold create_summary, groupby_sum. simpl. apply Sorted_merge_sort, _.
  - intros f. rewrite create_summary_index. apply elem_of_remove_dups.
  - apply create_summary_columns.
  - apply ground_truth_nonempty.
Qed.

(** X12. With the summary of the metadata and a column [label_v] of it,
    [get_selected_frames] returns, each once, the frames of the metadata
    whose ground truth (the boxes that [main] draws for the frame) has
    between [min_elts] and [max_elts] boxes with label [v]; each has at
    least one box. A name that is not [label_v] for a label [v] of the
    metadata, such as a bare label, raises [KeyError]. *)
Theorem get_selected_frames_of_summary metadata :
  (forall v min_elts max_elts,
     v ∈ label <$> metadata.*2 ->
     exists frames,
       get_selected_frames (create_summary metadata) ("label_" +:+ v) min_elts max_elts
       = Ok frames /\
       NoDup frames /\
       forall f, f ∈ frames <->
                 ground_truth metadata f <> [] /\
                 min_elts <= count_label v (ground_truth metadata f) <= max_elts) /\
  (forall name min_elts max_elts,
     (forall v, v ∈ label <$> metadata.*2 -> name <> "label_" +:+ v) ->
     get_selected_frames (create_summary metadata) name min_elts max_elts
     = Raise (KeyError name)).
Proof.
  split.
  - intros v a b Hv. unfold get_selected_frames.
    assert (Hcol : summary_columns (create_summary metadata) !! ("label_" +:+ v)
                   = Some ((fun f => count_label v (ground_truth metadata f))
                             <$> summary_index (create_summary metadata))).
    { apply create_summary_columns. exists v. auto. }
    rewrite Hcol. eexists. split; [reflexivity|].
    assert (Hnodup : NoDup (summary_index (create_summary metadata)))
      by (rewrite create_summary_index; apply NoDup_remove_dups).
    split.
    + eapply sublist_NoDup; [exact Hnodup | apply select_mask_sublist].
    + intros f. rewrite select_mask_range, elem_of_frames_in_range. split.
      * intros (i & c & Hi & Hc & Hr). rewrite list_lookup_fmap, Hi in Hc.
        injection Hc as <-. split; [|exact Hr].
        apply ground_truth_nonempty.
        rewrite <- elem_of_remove_dups, <- create_summary_index.
        eapply list_elem_of_lookup_2, Hi.
      * intros [Hne Hr].
        assert (Hin : f ∈ summary_index (create_summary metadata)).
        { rewrite create_summary_index, elem_of_remove_dups.
          apply ground_truth_nonempty, Hne. }
        apply list_elem_of_lookup in Hin as [i Hi]. exists i. eexists.
        split; [exact Hi|]. split; [|exact Hr]. rewrite list_lookup_fmap, Hi. reflexivity.
  - intros name a b Hname. unfold get_selected_frames.
    destruct (summary_columns (create_summary metadata) !! name) as [col|] eqn:Hcol;
      [|reflexivity].
    apply create_summary_columns in Hcol as (v & Hv & -> & _).
    exfalso. exact (Hname v Hv eq_refl).
Qed.
